(** * tfsdk.State: the state document facade of terraform-plugin-framework

    A shallow embedding of [tfsdk/state.go].  The facade pairs one wire-level
    value tree ([Raw]) with one schema and offers reads ([Get],
    [GetAttribute], [getAttributeValue]) and writes ([Set], [SetAttribute],
    [RemoveResource]).

    Layout of the development:
    - [tftypes]: the wire-level value tree, attribute paths, the read-only
      walk and the functional transform;
    - [diag]: severity-tagged diagnostics;
    - Section [Facade]: the functions of [state.go], over the collaborators
      the file imports ([attr], [internal/reflect], [tftypes]);
    - [Fixture]: the one-attribute schema of [config_test.go] with the
      [testtypes] string types, used to run the facade on concrete inputs;
    - the theorems.

    Conventions.  A Go [error] is identified with the text of its [Error()]
    method.  A Go function returning [(T, error)] whose value is only read
    when the error is nil is a [result]; where the value is read next to the
    error ([tftypes.Transform]) it is a pair.  A nil-able interface value is
    an [option].  A method call on a nil interface is the outcome [Panics].
    The receiver of a pointer method is passed in and handed back; what a
    read writes through its [target] pointer is handed back as well. *)

From Stdlib Require Import String Ascii List ZArith Bool Lia DecimalString.
Import ListNotations.
#[local] Set Warnings "-register-all".
Local Open Scope string_scope.
Local Open Scope list_scope.

(** Go's [+] on strings. *)
Local Infix "^^" := String.append (right associativity, at level 60).

(** ** Go-level plumbing *)

Definition error := string.

Inductive result (A : Type) : Type :=
| Ok (a : A)
| Err (e : error).
Arguments Ok {A} a.
Arguments Err {A} e.

Inductive Outcome (A : Type) : Type :=
| Returns (a : A)
| Panics.
Arguments Returns {A} a.
Arguments Panics {A}.

(** [fmt.Errorf(prefix + ": %w", err)], as far as [Error()] shows it. *)
Definition Errorf_wrap (prefix : string) (err : error) : error :=
  prefix ^^ ": " ^^ err.

(** ** tftypes: value tree, paths, walk and transform *)

Module tftypes.

(** Modelled from the spec: [tftypes.Type], the wire-level shape of a node
    (data model, "primitive scalar, ordered list of nodes, keyed map of
    nodes, fixed-arity object of named nodes"). *)
Inductive Type_ : Type :=
| String
| Number
| Bool
| DynamicPseudoType
| List (ElementType : Type_)
| Set' (ElementType : Type_)
| Map (ElementType : Type_)
| Object (AttributeTypes : list (string * Type_))
| Tuple (ElementTypes : list Type_).

(** Modelled from the spec: structural equality of two shapes ("object
    field sets, list/map element types must match"); the attributes of an
    object are compared in the order in which [Object] lists them. *)
Fixpoint Type_Equal (a b : Type_) {struct a} : bool :=
  match a, b with
  | String, String
  | Number, Number
  | Bool, Bool
  | DynamicPseudoType, DynamicPseudoType => true
  | List x, List y
  | Set' x, Set' y
  | Map x, Map y => Type_Equal x y
  | Object xs, Object ys =>
      (fix attributes (l l' : list (string * Type_)) {struct l} : bool :=
         match l, l' with
         | [], [] => true
         | (k, x) :: r, (k', y) :: r' =>
             String.eqb k k' && Type_Equal x y && attributes r r'
         | _, _ => false
         end) xs ys
  | Tuple xs, Tuple ys =>
      (fix elements (l l' : list Type_) {struct l} : bool :=
         match l, l' with
         | [], [] => true
         | x :: r, y :: r' => Type_Equal x y && elements r r'
         | _, _ => false
         end) xs ys
  | _, _ => false
  end.

(** The Go values [tftypes.NewValue] takes as its second argument: [nil], the
    unknown marker, a scalar, a slice of values or a string-keyed map of
    values.  A Go map is kept as an association list read by first match. *)
Inductive Payload (V : Type) : Type :=
| PNil
| PUnknown
| PString (s : string)
| PNumber (n : Z)
| PBool (b : bool)
| PList (vs : list V)
| PMap (m : list (string * V)).
Arguments PNil {V}.
Arguments PUnknown {V}.
Arguments PString {V} s.
Arguments PNumber {V} n.
Arguments PBool {V} b.
Arguments PList {V} vs.
Arguments PMap {V} m.

(** Modelled from the spec: [tftypes.Value], a node of the typed value tree:
    its type and one of null, unknown or a known payload. *)
Inductive Value : Type :=
| mkValue (typ : Type_) (value : Payload Value).

Definition Value_Type (v : Value) : Type_ :=
  match v with mkValue t _ => t end.

Definition Value_payload (v : Value) : Payload Value :=
  match v with mkValue _ p => p end.

(** Modelled from the spec: [tftypes.NewValue] pairs a type with a payload;
    payloads here are already the Go values the library accepts. *)
Definition NewValue (t : Type_) (val : Payload Value) : Value := mkValue t val.

(** Modelled from the spec: the method [IsNull] of a value. *)
Definition IsNull (v : Value) : bool :=
  match Value_payload v with PNil => true | _ => false end.

(** Modelled from the spec: a path step is an attribute name, a map key or a
    list/set index. *)
Inductive AttributePathStep : Type :=
| AttributeName (name : string)
| ElementKeyString (key : string)
| ElementKeyInt (index : Z).

Definition AttributePath := list AttributePathStep.

Definition NewAttributePath : AttributePath := [].

Definition WithAttributeName (p : AttributePath) (name : string) : AttributePath :=
  p ++ [AttributeName name].

Definition WithElementKeyString (p : AttributePath) (key : string) : AttributePath :=
  p ++ [ElementKeyString key].

Definition WithElementKeyInt (p : AttributePath) (index : Z) : AttributePath :=
  p ++ [ElementKeyInt index].

Definition step_Equal (a b : AttributePathStep) : bool :=
  match a, b with
  | AttributeName x, AttributeName y => String.eqb x y
  | ElementKeyString x, ElementKeyString y => String.eqb x y
  | ElementKeyInt x, ElementKeyInt y => Z.eqb x y
  | _, _ => false
  end.

(** Modelled from the spec: the method [Equal] of an attribute path; two
    paths are equal iff their step sequences are. *)
Fixpoint AttributePath_Equal (p q : AttributePath) : bool :=
  match p, q with
  | [], [] => true
  | a :: p', b :: q' => step_Equal a b && AttributePath_Equal p' q'
  | _, _ => false
  end.

Definition Z_String (z : Z) : string := NilZero.string_of_int (Z.to_int z).

(** The double quote character, as a string. *)
Definition quote : string := String.String "034"%char String.EmptyString.

(** Modelled from the spec: the [String] method of a step, of which the
    spec has only the step kinds: the kind applied to its key, a string key
    between double quotes. *)
Definition step_String (s : AttributePathStep) : string :=
  match s with
  | AttributeName n => "AttributeName(" ^^ quote ^^ n ^^ quote ^^ ")"
  | ElementKeyString k => "ElementKeyString(" ^^ quote ^^ k ^^ quote ^^ ")"
  | ElementKeyInt i => "ElementKeyInt(" ^^ Z_String i ^^ ")"
  end.

(** Modelled from the spec: the [String] method of a path: its steps in
    order, joined by dots. *)
Definition AttributePath_String (p : AttributePath) : string :=
  String.concat "." (map step_String p).

Definition ErrInvalidStep : error := "step cannot be applied to this value".

Fixpoint lookup {V : Type} (k : string) (m : list (string * V)) : option V :=
  match m with
  | [] => None
  | (k', v) :: m' => if String.eqb k k' then Some v else lookup k m'
  end.

Definition index {V : Type} (i : Z) (vs : list V) : option V :=
  if (i <? 0)%Z then None else nth_error vs (Z.to_nat i).

(** Modelled from the spec: one step of the descent; the step has to match
    the shape of the node, and the node has to be known and not null. *)
Definition ApplyStep (v : Value) (step : AttributePathStep) : result Value :=
  match step, v with
  | AttributeName k, mkValue (Object _) (PMap m) =>
      match lookup k m with Some c => Ok c | None => Err ErrInvalidStep end
  | ElementKeyString k, mkValue (Map _) (PMap m) =>
      match lookup k m with Some c => Ok c | None => Err ErrInvalidStep end
  | ElementKeyInt i, mkValue (List _) (PList vs)
  | ElementKeyInt i, mkValue (Set' _) (PList vs)
  | ElementKeyInt i, mkValue (Tuple _) (PList vs) =>
      match index i vs with Some c => Ok c | None => Err ErrInvalidStep end
  | _, _ => Err ErrInvalidStep
  end.

(** Modelled from the spec: [tftypes.WalkAttributePath] (walk): descends step
    by step and returns the node at the final step, or fails and reports
    the steps it could not consume. *)
Fixpoint WalkAttributePath (v : Value) (path : AttributePath)
  : option Value * AttributePath * option error :=
  match path with
  | [] => (Some v, [], None)
  | step :: rest =>
      match ApplyStep v step with
      | Ok child => WalkAttributePath child rest
      | Err e => (None, path, Some e)
      end
  end.

(** A callback of [Transform]; the Go closure may write to variables it
    captured, so the callback threads a state [St]. *)
Definition callback (St : Type) : Type :=
  AttributePath -> Value -> St -> (Value * option error) * St.

Section Traverse.
Context {St A B : Type}.
Variable f : nat -> A -> St -> (B * option error) * St.

(** The child loop of [transform]: left to right, stopping at the first
    error. *)
Fixpoint traverse (pos : nat) (l : list A) (st : St)
  : (list B * option error) * St :=
  match l with
  | [] => (([], None), st)
  | a :: l' =>
      match f pos a st with
      | ((_, Some e), st') => (([], Some e), st')
      | ((b, None), st') =>
          match traverse (S pos) l' st' with
          | ((bs, oe), st'') => ((b :: bs, oe), st'')
          end
      end
  end.
End Traverse.

(** The step that leads from a keyed node to its child [k]. *)
Definition keyStep (t : Type_) : option (string -> AttributePathStep) :=
  match t with
  | Object _ => Some AttributeName
  | Map _ => Some ElementKeyString
  | _ => None
  end.

Definition isSequence (t : Type_) : bool :=
  match t with
  | List _ | Set' _ | Tuple _ => true
  | _ => false
  end.

(** Modelled from the spec: the shape check on what the callback hands back
    for a node ("mismatches produce an error carrying the offending
    sub-path"): a value of another type than the node's is refused, and the
    node comes back as it was next to the error.  An error of the callback
    itself passes through. *)
Definition keepsType {St : Type} (path : AttributePath) (val : Value)
  (r : (Value * option error) * St) : (Value * option error) * St :=
  match r with
  | ((res, Some e), st') => ((res, Some e), st')
  | ((res, None), st') =>
      if Type_Equal (Value_Type res) (Value_Type val) then ((res, None), st')
      else
        ((val,
          Some (AttributePath_String path ^^ ": invalid transform: value changed type")),
         st')
  end.

(** Modelled from the spec: the recursion of [tftypes.Transform]: the
    children of a known composite node are transformed first, each under
    [path] extended by its step, the node is rebuilt from them, and the
    callback is applied to the rebuilt node and its answer checked for the
    node's type.  Null, unknown and scalar nodes go to the callback as they
    are.  An error below a node gives that node back unchanged next to the
    error. *)
Fixpoint transform {St : Type} (cb : callback St) (path : AttributePath)
  (val : Value) (st : St) {struct val} : (Value * option error) * St :=
  let rebuilt : (Value * option error) * St :=
    match val with
    | mkValue ty (PList vs) =>
        if isSequence ty then
          match traverse
                  (fun pos v => transform cb (WithElementKeyInt path (Z.of_nat pos)) v)
                  0 vs st with
          | ((_, Some e), st') => ((val, Some e), st')
          | ((elems, None), st') => ((mkValue ty (PList elems), None), st')
          end
        else ((val, None), st)
    | mkValue ty (PMap m) =>
        match keyStep ty with
        | Some step =>
            match traverse
                    (fun _ kv st0 =>
                       match kv with
                       | (k, v) =>
                           match transform cb (path ++ [step k]) v st0 with
                           | ((nv, oe), st1) => (((k, nv), oe), st1)
                           end
                       end)
                    0 m st with
            | ((_, Some e), st') => ((val, Some e), st')
            | ((elems, None), st') => ((mkValue ty (PMap elems), None), st')
            end
        | None => ((val, None), st)
        end
    | _ => ((val, None), st)
    end in
  match rebuilt with
  | ((_, Some e), st') => ((val, Some e), st')
  | ((newVal, None), st') => keepsType path val (cb path newVal st')
  end.

(** Modelled from the spec: [tftypes.Transform] starts the recursion at the
    empty path. *)
Definition Transform {St : Type} (val : Value) (cb : callback St) (st : St)
  : (Value * option error) * St :=
  transform cb NewAttributePath val st.

End tftypes.

(** ** diag: diagnostics *)

Module diag.

(** Modelled from the spec: [diag.Severity]; the data model gives a
    diagnostic one of two severities. *)
Inductive Severity : Type :=
| SeverityError
| SeverityWarning.

Definition Severity_eqb (a b : Severity) : bool :=
  match a, b with
  | SeverityError, SeverityError => true
  | SeverityWarning, SeverityWarning => true
  | _, _ => false
  end.

(** Modelled from the spec: [diag.Diagnostic]: severity, summary, detail and
    an optional attribute path. *)
Record Diagnostic : Type := mkDiagnostic {
  Severity_ : Severity;
  Summary : string;
  Detail : string;
  Path : option tftypes.AttributePath
}.

(** Modelled from the spec: the four constructors of the package, by
    severity and with or without a path. *)
Definition NewErrorDiagnostic (summary detail : string) : Diagnostic :=
  mkDiagnostic SeverityError summary detail None.

Definition NewWarningDiagnostic (summary detail : string) : Diagnostic :=
  mkDiagnostic SeverityWarning summary detail None.

Definition NewAttributeErrorDiagnostic (path : tftypes.AttributePath)
  (summary detail : string) : Diagnostic :=
  mkDiagnostic SeverityError summary detail (Some path).

Definition NewAttributeWarningDiagnostic (path : tftypes.AttributePath)
  (summary detail : string) : Diagnostic :=
  mkDiagnostic SeverityWarning summary detail (Some path).

(** Modelled from the spec: [diag.Diagnostics], an ordered, append-only
    collection; the nil collection is the empty list. *)
Definition Diagnostics := list Diagnostic.

(** Modelled from the spec: Error severity is the one failure signal. *)
Definition isError (d : Diagnostic) : bool :=
  Severity_eqb (Severity_ d) SeverityError.

Definition HasError (diags : Diagnostics) : bool := existsb isError diags.

(** Modelled from the spec: the methods [Append], [AddError] and
    [AddAttributeError] add at the end and discard nothing. *)
Definition Append (diags : Diagnostics) (more : Diagnostics) : Diagnostics :=
  diags ++ more.

Definition AddError (diags : Diagnostics) (summary detail : string) : Diagnostics :=
  Append diags [NewErrorDiagnostic summary detail].

Definition AddAttributeError (diags : Diagnostics) (path : tftypes.AttributePath)
  (summary detail : string) : Diagnostics :=
  Append diags [NewAttributeErrorDiagnostic path summary detail].

End diag.

(** ** Go interface values handed to the write operations *)

(** What a non-nil [interface{}] holds: a typed pointer that is itself nil,
    or any other host value. *)
Inductive Dynamic (Host : Type) : Type :=
| NilPointer (pointee : string)
| HostValue (h : Host).
Arguments NilPointer {Host} pointee.
Arguments HostValue {Host} h.

(** [interface{}]; [None] is the nil interface, the only value for which
    [val == nil] holds. *)
Definition Interface (Host : Type) : Type := option (Dynamic Host).

(** ** The facade *)

Section Facade.

Import tftypes diag.

(** Implementations of [attr.Value], host values passed to the writes, and
    the contents of the location a read [target] points to. *)
Variables AttrValue Host Target : Type.

(** [attr.Type]; [Validate] is present when the type also implements
    [attr.TypeWithValidate]. *)
Record AttrType : Type := mkAttrType {
  TerraformType : Type_;
  ValueFromTerraform : Value -> option AttrValue * option error;
  Validate : option (Value -> AttributePath -> Diagnostics)
}.

(** What [state.go] asks of a [Schema]. *)
Record Schema_ : Type := mkSchema {
  AttributeType : AttrType;
  AttributeTypeAtPath : AttributePath -> result AttrType;
  Schema_TerraformType : Type_
}.

(** [State]. *)
Record State : Type := mkState {
  Raw : Value;
  Schema : Schema_
}.

(** The method [ToTerraformValue] of [attr.Value]. *)
Variable ToTerraformValue : AttrValue -> result (Payload Value).

(** [reflect.FromValue]. *)
Variable FromValue :
  AttrType -> Interface Host -> AttributePath -> option AttrValue * Diagnostics.

(** [ValueAs]: fills the location behind [target] and reports how it went. *)
Variable ValueAs : AttrValue -> Target -> Target * Diagnostics.

(** [reflect.Into], with the empty [reflect.Options]. *)
Variable Into : AttrType -> Value -> Target -> Target * Diagnostics.

(** [tftypes.WalkAttributePath]; the first component is [None] when the
    result is not a [tftypes.Value]. *)
Variable WalkAttributePath :
  Value -> AttributePath -> option Value * AttributePath * option error.

(** [tftypes.Transform]. *)
Variable Transform :
  forall St : Type, Value -> callback St -> St -> (Value * option error) * St.

Definition readPreamble : string :=
  "An unexpected error was encountered trying to read an attribute from the state. This is always an error in the provider. Please report the following to the provider developer:

".

Definition writeAttrPreamble : string :=
  "An unexpected error was encountered trying to write an attribute to the state. This is always an error in the provider. Please report the following to the provider developer:

".

Definition writePreamble : string :=
  "An unexpected error was encountered trying to write the state. This is always an error in the provider. Please report the following to the provider developer:

".

Definition missingValueDetail : string :=
  "Missing attribute value, however no error was returned. Preventing the panic from this situation.".

Definition nilStateError : error :=
  "cannot set nil as entire state; to remove a resource from state, call State.RemoveResource, instead".

(** [Get]. *)
Definition Get (s : State) (target : Target) : Target * Diagnostics :=
  Into (AttributeType (Schema s)) (Raw s) target.

(** [terraformValueAtPath]. *)
Definition terraformValueAtPath (s : State) (path : AttributePath) : result Value :=
  match WalkAttributePath (Raw s) path with
  | (_, remaining, Some err) =>
      Err (AttributePath_String remaining ^^ " still remains in the path: " ^^ err)
  | (rawValue, _, None) =>
      match rawValue with
      | Some attrValue => Ok attrValue
      | None => Err "got non-tftypes.Value result <nil>"
      end
  end.

(** [getAttributeValue]. *)
Definition getAttributeValue (s : State) (path : AttributePath)
  : option AttrValue * Diagnostics :=
  let diags : Diagnostics := [] in
  match AttributeTypeAtPath (Schema s) path with
  | Err err =>
      let err := Errorf_wrap "error getting attribute type in schema" err in
      (None, AddAttributeError diags path "State Read Error" (readPreamble ^^ err))
  | Ok attrType =>
      if IsNull (Raw s) then (None, [])
      else
        match terraformValueAtPath s path with
        | Err err =>
            (None, AddAttributeError diags path "State Read Error" (readPreamble ^^ err))
        | Ok tfValue =>
            let convert (diags : Diagnostics) : option AttrValue * Diagnostics :=
              match ValueFromTerraform attrType tfValue with
              | (_, Some err) =>
                  (None,
                   AddAttributeError diags path "State Read Error" (readPreamble ^^ err))
              | (attrValue, None) => (attrValue, diags)
              end in
            match Validate attrType with
            | Some validate =>
                let diags := Append diags (validate tfValue path) in
                if HasError diags then (None, diags) else convert diags
            | None => convert diags
            end
        end
  end.

(** The loop of [GetAttribute] over the diagnostics of [ValueAs]. *)
Definition reattribute (path : AttributePath) (valueAsDiag : Diagnostic) : Diagnostic :=
  if Severity_eqb (Severity_ valueAsDiag) SeverityError then
    NewAttributeErrorDiagnostic path (Summary valueAsDiag) (Detail valueAsDiag)
  else if Severity_eqb (Severity_ valueAsDiag) SeverityWarning then
    NewAttributeWarningDiagnostic path (Summary valueAsDiag) (Detail valueAsDiag)
  else valueAsDiag.

(** [GetAttribute]; returns the contents of [target] next to the
    diagnostics. *)
Definition GetAttribute (s : State) (path : AttributePath) (target : Target)
  : Target * Diagnostics :=
  let (attrValue, diags) := getAttributeValue s path in
  if HasError diags then (target, diags)
  else
    match attrValue with
    | None =>
        (target,
         AddAttributeError diags path "State Read Error"
           (readPreamble ^^ missingValueDetail))
    | Some attrValue =>
        let (target, valueAsDiags) := ValueAs attrValue target in
        let valueAsDiags := map (reattribute path) valueAsDiags in
        (target, Append diags valueAsDiags)
    end.

Definition setRaw (s : State) (raw : Value) : State := mkState raw (Schema s).

(** The diagnostic [Set] answers a nil interface with. *)
Definition nilStateDiagnostic : Diagnostic :=
  NewErrorDiagnostic "State Read Error" (writePreamble ^^ nilStateError).

(** [Set]. *)
Definition Set_ (s : State) (val : Interface Host) : Outcome (State * Diagnostics) :=
  match val with
  | None => Returns (s, [nilStateDiagnostic])
  | Some _ =>
      let (newStateAttrValue, diags) :=
        FromValue (AttributeType (Schema s)) val NewAttributePath in
      if HasError diags then Returns (s, diags)
      else
        match newStateAttrValue with
        | None => Panics
        | Some newStateAttrValue =>
            match ToTerraformValue newStateAttrValue with
            | Err err =>
                let err := Errorf_wrap "error running ToTerraformValue on state" err in
                Returns (s, AddError diags "State Write Error" (writePreamble ^^ err))
            | Ok newStateVal =>
                let newState :=
                  NewValue (TerraformType (AttributeType (Schema s))) newStateVal in
                Returns (setRaw s newState, diags)
            end
        end
  end.

(** The closure [transformFunc] of [SetAttribute]; the captured [diags] is
    the threaded state. *)
Definition transformFunc (path : AttributePath) (attrType : AttrType)
  (newTfVal : Payload Value) : callback Diagnostics :=
  fun p v diags =>
    if AttributePath_Equal p path then
      let tfVal := NewValue (TerraformType attrType) newTfVal in
      match Validate attrType with
      | Some validate =>
          let diags := Append diags (validate tfVal path) in
          if HasError diags then ((v, None), diags) else ((tfVal, None), diags)
      | None => ((tfVal, None), diags)
      end
    else ((v, None), diags).

(** [SetAttribute]. *)
Definition SetAttribute (s : State) (path : AttributePath) (val : Interface Host)
  : Outcome (State * Diagnostics) :=
  let diags : Diagnostics := [] in
  match AttributeTypeAtPath (Schema s) path with
  | Err err =>
      let err := Errorf_wrap "error getting attribute type in schema" err in
      Returns (s, AddAttributeError diags path "State Write Error" (writeAttrPreamble ^^ err))
  | Ok attrType =>
      let (newVal, newValDiags) := FromValue attrType val path in
      let diags := Append diags newValDiags in
      if HasError diags then Returns (s, diags)
      else
        match newVal with
        | None => Panics
        | Some newVal =>
            match ToTerraformValue newVal with
            | Err err =>
                let err :=
                  Errorf_wrap "error running ToTerraformValue on new state value" err in
                Returns
                  (s, AddAttributeError diags path "State Write Error"
                        (writeAttrPreamble ^^ err))
            | Ok newTfVal =>
                match Transform Diagnostics (Raw s)
                        (transformFunc path attrType newTfVal) diags with
                | ((raw, err), diags) =>
                    let s := setRaw s raw in
                    match err with
                    | Some err =>
                        Returns
                          (s, AddAttributeError diags path "State Write Error"
                                (writeAttrPreamble ^^ err))
                    | None => Returns (s, diags)
                    end
                end
            end
        end
  end.

(** [RemoveResource]. *)
Definition RemoveResource (s : State) : State :=
  setRaw s (NewValue (Schema_TerraformType (Schema s)) PNil).

End Facade.

Arguments mkAttrType {AttrValue} TerraformType ValueFromTerraform Validate.
Arguments TerraformType {AttrValue} a.
Arguments ValueFromTerraform {AttrValue} a.
Arguments Validate {AttrValue} a.
Arguments mkSchema {AttrValue} AttributeType AttributeTypeAtPath Schema_TerraformType.
Arguments AttributeType {AttrValue} s.
Arguments AttributeTypeAtPath {AttrValue} s.
Arguments Schema_TerraformType {AttrValue} s.
Arguments mkState {AttrValue} Raw Schema.
Arguments Raw {AttrValue} s.
Arguments Schema {AttrValue} s.
Arguments setRaw {AttrValue} s raw.
Arguments RemoveResource {AttrValue} s.
Arguments Get {AttrValue Target} Into s target.
Arguments terraformValueAtPath {AttrValue} WalkAttributePath s path.
Arguments getAttributeValue {AttrValue} WalkAttributePath s path.
Arguments GetAttribute {AttrValue Target} ValueAs WalkAttributePath s path target.
Arguments Set_ {AttrValue Host} ToTerraformValue FromValue s val.
Arguments transformFunc {AttrValue} path attrType newTfVal.
Arguments SetAttribute {AttrValue Host} ToTerraformValue FromValue Transform s path val.

(** ** A concrete document: the schema of [config_test.go] *)

Module Fixture.

Import tftypes diag.

(** The attribute types of the tests: [types.StringType] and the two
    validating string types of [testtypes]. *)
Inductive Creator : Type :=
| StringType
| StringTypeWithValidateError
| StringTypeWithValidateWarning.

(** The [attr.Value] implementations the tests meet: [types.String],
    [testtypes.String], and the object value of the one-attribute document. *)
Inductive AttrValue : Type :=
| types_String (Null : bool) (Value : string)
| testtypes_String (Null : bool) (Value : string) (CreatedBy : Creator)
| types_Object (Name : AttrValue).

(** Host values: a string, a bool, and
    [struct { Name string `tfsdk:"name"` }]. *)
Inductive Host : Type :=
| GoString (s : string)
| GoBool (b : bool)
| GoStruct (Name : string).

(** What a read target points to: [string], [bool], [types.String] or
    [testtypes.String] (with its zero [CreatedBy] as [None]). *)
Inductive Target : Type :=
| AtString (s : string)
| AtBool (b : bool)
| AtTypesString (Null : bool) (Value : string)
| AtTesttypesString (Null : bool) (Value : string) (CreatedBy : option Creator).

Definition TestErrorDiagnostic (path : AttributePath) : Diagnostic :=
  NewAttributeErrorDiagnostic path "Error Diagnostic" "This is an error.".

Definition TestWarningDiagnostic (path : AttributePath) : Diagnostic :=
  NewAttributeWarningDiagnostic path "Warning Diagnostic" "This is a warning.".

Definition stringFromTerraform (mk : bool -> string -> AttrValue) (v : Value)
  : option AttrValue * option error :=
  match Value_payload v with
  | PNil => (Some (mk true ""), None)
  | PString s => (Some (mk false s), None)
  | _ => (None, Some "can't unmarshal value into *string, expected string")
  end.

Definition attrTypeOf (c : Creator) : AttrType AttrValue :=
  match c with
  | StringType =>
      mkAttrType String (stringFromTerraform types_String) None
  | StringTypeWithValidateError =>
      mkAttrType String
        (stringFromTerraform (fun n s => testtypes_String n s c))
        (Some (fun _ path => [TestErrorDiagnostic path]))
  | StringTypeWithValidateWarning =>
      mkAttrType String
        (stringFromTerraform (fun n s => testtypes_String n s c))
        (Some (fun _ path => [TestWarningDiagnostic path]))
  end.

Definition documentType : Type_ := Object [("name", String)].

(** The object type of the whole document, whose attribute [name] has the
    type made by [c]. *)
Definition objectTypeOf (c : Creator) : AttrType AttrValue :=
  mkAttrType documentType
    (fun v =>
       match v with
       | mkValue _ (PMap m) =>
           match lookup "name" m with
           | Some n =>
               match ValueFromTerraform (attrTypeOf c) n with
               | (Some a, None) => (Some (types_Object a), None)
               | (_, oe) => (None, oe)
               end
           | None => (None, Some "missing attribute name")
           end
       | _ => (None, Some "can't unmarshal value into an object")
       end)
    None.

(** [Schema{Attributes: {"name": {Type: c, Required: true}}}] *)
Definition schemaOf (c : Creator) : Schema_ AttrValue :=
  mkSchema (objectTypeOf c)
    (fun path =>
       match path with
       | [] => Ok (objectTypeOf c)
       | [AttributeName "name"] => Ok (attrTypeOf c)
       | _ => Err "path leads to no attribute of the schema"
       end)
    documentType.

Fixpoint ToTerraformValue (a : AttrValue) : result (Payload Value) :=
  match a with
  | types_String true _ | testtypes_String true _ _ => Ok PNil
  | types_String false s | testtypes_String false s _ => Ok (PString s)
  | types_Object n =>
      match ToTerraformValue n with
      | Ok p => Ok (PMap [("name", mkValue String p)])
      | Err e => Err e
      end
  end.

Definition conversionError (detail : string) : Diagnostic :=
  NewAttributeErrorDiagnostic NewAttributePath "Value Conversion Error" detail.

(** Modelled from the spec: [reflect.FromValue] on the host values of the
    fixture: builds the wire value the attribute type expects, runs the
    validation of the type, converts, and answers a shape the type cannot
    take, or a nil document, with one Error diagnostic. *)
Definition FromValue (typ : AttrType AttrValue) (val : Interface Host)
  (path : AttributePath) : option AttrValue * Diagnostics :=
  let viaWire (p : Payload Value) : option AttrValue * Diagnostics :=
    let tfVal := NewValue (TerraformType typ) p in
    let diags :=
      match Validate typ with
      | Some validate => validate tfVal path
      | None => []
      end in
    if HasError diags then (None, diags)
    else
      match ValueFromTerraform typ tfVal with
      | (Some a, None) => (Some a, diags)
      | (_, Some e) => (None, AddAttributeError diags path "Value Conversion Error" e)
      | (None, None) => (None, diags)
      end in
  match val, TerraformType typ with
  | Some (HostValue (GoString s)), String => viaWire (PString s)
  | Some (HostValue (GoStruct n)), Object _ =>
      viaWire (PMap [("name", mkValue String (PString n))])
  | Some (NilPointer _), String => viaWire PNil
  | None, String => viaWire PNil
  | _, _ =>
      (None,
       [NewAttributeErrorDiagnostic path "Value Conversion Error"
          "cannot use the host value where the schema declares another type"])
  end.

(** Modelled from the spec: [ValueAs] ([reflect.Into] at the value): fills a
    target of a compatible shape and leaves an incompatible one as it is,
    with one Error diagnostic that carries no path of the document. *)
Definition ValueAs (a : AttrValue) (target : Target) : Target * Diagnostics :=
  match a, target with
  | types_String false s, AtString _ => (AtString s, [])
  | types_String n s, AtTypesString _ _ => (AtTypesString n s, [])
  | testtypes_String n s c, AtTesttypesString _ _ _ =>
      (AtTesttypesString n s (Some c), [])
  | testtypes_String false s _, AtString _ => (AtString s, [])
  | _, _ =>
      (target,
       [conversionError "cannot populate the target from a value of this type"])
  end.

(** A transform that does the work of [tftypes.Transform] and then reports a
    failure next to the tree it built. *)
Definition failingTransform (St : Type) (val : Value) (cb : callback St) (st : St)
  : (Value * option error) * St :=
  match tftypes.Transform val cb st with
  | ((res, _), st') => ((res, Some "transform failed"), st')
  end.

(** The tree [{name: n}] of the tests. *)
Definition document (n : string) : Value :=
  NewValue documentType (PMap [("name", NewValue String (PString n))]).

Definition namePath : AttributePath := WithAttributeName NewAttributePath "name".

Definition stateOf (c : Creator) (n : string) : State AttrValue :=
  mkState (document n) (schemaOf c).

Definition getAttributeValue :=
  @getAttributeValue AttrValue tftypes.WalkAttributePath.

Definition GetAttribute :=
  @GetAttribute AttrValue Target ValueAs tftypes.WalkAttributePath.

Definition Set_ := @Set_ AttrValue Host ToTerraformValue FromValue.

Definition SetAttribute :=
  @SetAttribute AttrValue Host ToTerraformValue FromValue (@tftypes.Transform).

(** A [FromValue] that converts a host string as the attribute type says
    and does not run the validation of the type, so that the validation
    met in a write is the one of the transform. *)
Definition FromValueUnvalidated (typ : AttrType AttrValue) (val : Interface Host)
  (path : AttributePath) : option AttrValue * Diagnostics :=
  match val with
  | Some (HostValue (GoString s)) =>
      (fst (ValueFromTerraform typ (NewValue (TerraformType typ) (PString s))), [])
  | _ =>
      (None,
       [NewAttributeErrorDiagnostic path "Value Conversion Error"
          "cannot use the host value where the schema declares another type"])
  end.

(** The tree [{name: true}] of type [Object{name: Bool}], which the schema
    of the tests, with its string [name], does not describe. *)
Definition boolDocument : Value :=
  NewValue (Object [("name", Bool)]) (PMap [("name", NewValue Bool (PBool true))]).

End Fixture.

(** ** A document with two attributes *)

Module TwoAttributes.

Import tftypes diag.

Definition documentType : Type_ := Object [("id", String); ("name", String)].

(** [Schema{Attributes: {"id": {Type: types.StringType}, "name": {Type:
    types.StringType}}}], as far as attribute paths are concerned. *)
Definition schema : Schema_ Fixture.AttrValue :=
  mkSchema
    (mkAttrType documentType
       (fun _ => (None, Some "the document is not read as a whole here")) None)
    (fun path =>
       match path with
       | [AttributeName "id"] | [AttributeName "name"] =>
           Ok (Fixture.attrTypeOf Fixture.StringType)
       | _ => Err "path leads to no attribute of the schema"
       end)
    documentType.

(** The tree [{id: i, name: n}]. *)
Definition document (i n : string) : Value :=
  NewValue documentType
    (PMap [("id", NewValue String (PString i));
           ("name", NewValue String (PString n))]).

Definition idPath : AttributePath := WithAttributeName NewAttributePath "id".

Definition stateOf (i n : string) : State Fixture.AttrValue :=
  mkState (document i n) schema.

End TwoAttributes.

(** ** A document with a map attribute *)

Module Tagged.

Import tftypes diag.

Definition documentType : Type_ := Object [("tags", Map String)].

(** [Schema{Attributes: {"tags": {Type: types.MapType{ElemType:
    types.StringType}}}}], as far as the elements of [tags] are concerned. *)
Definition schema : Schema_ Fixture.AttrValue :=
  mkSchema
    (mkAttrType documentType
       (fun _ => (None, Some "the document is not read as a whole here")) None)
    (fun path =>
       match path with
       | [AttributeName "tags"; ElementKeyString _] =>
           Ok (Fixture.attrTypeOf Fixture.StringType)
       | _ => Err "path leads to no attribute of the schema"
       end)
    documentType.

(** The tree [{tags: {a: "1"}}]. *)
Definition document : Value :=
  NewValue documentType
    (PMap [("tags", NewValue (Map String) (PMap [("a", NewValue String (PString "1"))]))]).

Definition tagPath (key : string) : AttributePath :=
  [AttributeName "tags"; ElementKeyString key].

Definition state : State Fixture.AttrValue := mkState document schema.

End Tagged.

(** ** Vocabulary of the statements *)

(** [p] is an initial segment of [q]. *)
Definition isPrefix (p q : tftypes.AttributePath) : Prop :=
  exists r, q = p ++ r.

(** Two lists related element by element, the relation knowing the position
    of each pair. *)
Inductive Forall2i {A B : Type} (R : nat -> A -> B -> Prop)
  : nat -> list A -> list B -> Prop :=
| Forall2i_nil (i : nat) : Forall2i R i [] []
| Forall2i_cons (i : nat) (a : A) (b : B) (l : list A) (l' : list B) :
    R i a b -> Forall2i R (S i) l l' -> Forall2i R i (a :: l) (b :: l').

(** A node the transform does not descend into. *)
Definition childless (val : tftypes.Value) : Prop :=
  match val with
  | tftypes.mkValue ty (tftypes.PList _) => tftypes.isSequence ty = false
  | tftypes.mkValue ty (tftypes.PMap _) => tftypes.keyStep ty = None
  | _ => True
  end.

(** The walk from [v] along [path] arrives at [node]. *)
Definition arrives (v : tftypes.Value) (path : tftypes.AttributePath)
  (node : tftypes.Value) : Prop :=
  tftypes.WalkAttributePath v path = (Some node, [], None).

(** [v'] is [v] with the node at [rest] replaced by [new]: the walk along
    [rest] that arrived somewhere in [v] arrives at [new] in [v'], and
    every walk along a path that neither leads to [rest] nor goes through
    it gives in [v'] what it gave in [v]. *)
Definition replacedAt (new : tftypes.Value) (rest : tftypes.AttributePath)
  (v v' : tftypes.Value) : Prop :=
  ((exists old, arrives v rest old) -> arrives v' rest new) /\
  (forall q, ~ isPrefix q rest -> ~ isPrefix rest q ->
     tftypes.WalkAttributePath v' q = tftypes.WalkAttributePath v q).

(** What the step [s] reaches in a node ([c]) and in the node rebuilt from
    it ([c']), when the route to the replaced node goes on with [step] and
    then [rest]. *)
Definition sameChildAt (new : tftypes.Value) (step : tftypes.AttributePathStep)
  (rest : tftypes.AttributePath) (s : tftypes.AttributePathStep)
  (c c' : tftypes.Value) : Prop :=
  (s = step -> replacedAt new rest c c') /\ (s <> step -> c' = c).

(** Every step either fails on both nodes or reaches related children. *)
Definition sameStepsAt (new : tftypes.Value) (step : tftypes.AttributePathStep)
  (rest : tftypes.AttributePath) (val val' : tftypes.Value) : Prop :=
  forall s,
    match tftypes.ApplyStep val s, tftypes.ApplyStep val' s with
    | Ok c, Ok c' => sameChildAt new step rest s c c'
    | Err e, Err e' => e = e'
    | _, _ => False
    end.

(** The list [l] with [b] at position [j]. *)
Definition setNth {A : Type} (j : nat) (b : A) (l : list A) : list A :=
  firstn j l ++ b :: skipn (S j) l.

(** Keys of a keyed node are unique, here and below, as in a Go map. *)
Inductive uniqueKeys : tftypes.Value -> Prop :=
| uniqueKeys_nil (ty : tftypes.Type_) : uniqueKeys (tftypes.mkValue ty tftypes.PNil)
| uniqueKeys_unknown (ty : tftypes.Type_) :
    uniqueKeys (tftypes.mkValue ty tftypes.PUnknown)
| uniqueKeys_string (ty : tftypes.Type_) (x : string) :
    uniqueKeys (tftypes.mkValue ty (tftypes.PString x))
| uniqueKeys_number (ty : tftypes.Type_) (n : Z) :
    uniqueKeys (tftypes.mkValue ty (tftypes.PNumber n))
| uniqueKeys_bool (ty : tftypes.Type_) (b : bool) :
    uniqueKeys (tftypes.mkValue ty (tftypes.PBool b))
| uniqueKeys_list (ty : tftypes.Type_) (vs : list tftypes.Value) :
    Forall uniqueKeys vs -> uniqueKeys (tftypes.mkValue ty (tftypes.PList vs))
| uniqueKeys_map (ty : tftypes.Type_) (m : list (string * tftypes.Value)) :
    NoDup (map fst m) -> Forall (fun kv => uniqueKeys (snd kv)) m ->
    uniqueKeys (tftypes.mkValue ty (tftypes.PMap m)).

(** [SetAttribute] gets as far as the transform with [val] at [path], and
    the callback will put [tfVal] there: the schema knows the path,
    [FromValue] gives a value and no Error, the value has a wire form, of
    which [tfVal] is made, and [Validate], if the type has one, reports no
    Error on [tfVal]. *)
Definition accepts {AttrValue Host : Type}
  (ToTerraformValue : AttrValue -> result (tftypes.Payload tftypes.Value))
  (FromValue : AttrType AttrValue -> Interface Host -> tftypes.AttributePath ->
               option AttrValue * diag.Diagnostics)
  (schema : Schema_ AttrValue) (path : tftypes.AttributePath)
  (val : Interface Host) (tfVal : tftypes.Value) : Prop :=
  exists attrType newVal newValDiags newTfVal,
    AttributeTypeAtPath schema path = Ok attrType /\
    FromValue attrType val path = (Some newVal, newValDiags) /\
    diag.HasError newValDiags = false /\
    ToTerraformValue newVal = Ok newTfVal /\
    tfVal = tftypes.NewValue (TerraformType attrType) newTfVal /\
    diag.HasError
      match Validate attrType with
      | Some validate => validate tfVal path
      | None => []
      end = false.

(** * Properties *)

(** ** Diagnostics and paths *)

Module diagFacts.
Import diag.

Lemma HasError_app (a b : Diagnostics) :
  HasError (a ++ b) = HasError a || HasError b.
Proof. unfold HasError. apply existsb_app. Qed.

Lemma HasError_Append (a b : Diagnostics) :
  HasError (Append a b) = HasError a || HasError b.
Proof. apply HasError_app. Qed.

Lemma HasError_AddAttributeError diags path summary detail :
  HasError (AddAttributeError diags path summary detail) = true.
Proof.
  unfold AddAttributeError. rewrite HasError_Append.
  cbn. now rewrite orb_true_r.
Qed.

Lemma Severity_eqb_eq (a b : Severity) : Severity_eqb a b = true <-> a = b.
Proof. destruct a, b; cbn; split; intro H; try reflexivity; discriminate H. Qed.

End diagFacts.

Module pathFacts.
Import tftypes.

Lemma step_Equal_eq (a b : AttributePathStep) : step_Equal a b = true <-> a = b.
Proof.
  destruct a as [x|x|x], b as [y|y|y]; cbn; split; intro H;
    try discriminate H.
  - apply String.eqb_eq in H. now subst.
  - injection H as ->. apply String.eqb_refl.
  - apply String.eqb_eq in H. now subst.
  - injection H as ->. apply String.eqb_refl.
  - apply Z.eqb_eq in H. now subst.
  - injection H as ->. apply Z.eqb_refl.
Qed.

Lemma AttributePath_Equal_eq (p q : AttributePath) :
  AttributePath_Equal p q = true <-> p = q.
Proof.
  revert q. induction p as [|a p IH]; intros [|b q]; cbn; split; intro H;
    try reflexivity; try discriminate H.
  - apply andb_true_iff in H as [Hs Hp].
    apply step_Equal_eq in Hs. apply IH in Hp. now subst.
  - injection H as -> ->. apply andb_true_iff. split.
    + now apply step_Equal_eq.
    + now apply IH.
Qed.

Lemma AttributePath_Equal_refl (p : AttributePath) : AttributePath_Equal p p = true.
Proof. now apply AttributePath_Equal_eq. Qed.

Lemma AttributePath_Equal_neq (p q : AttributePath) :
  p <> q -> AttributePath_Equal p q = false.
Proof.
  intro H. destruct (AttributePath_Equal p q) eqn:E; [|reflexivity].
  apply AttributePath_Equal_eq in E. contradiction.
Qed.

Lemma step_eq_dec (a b : AttributePathStep) : {a = b} + {a <> b}.
Proof.
  destruct (step_Equal a b) eqn:E.
  - left. now apply step_Equal_eq.
  - right. intro H. apply step_Equal_eq in H. congruence.
Qed.

End pathFacts.

(** ** The value tree: walk and transform *)

Module treeFacts.
Import tftypes pathFacts.

Section ValueInduction.
Variable P : Value -> Prop.
Hypothesis Hnode : forall ty p,
  match p with
  | PList vs => Forall P vs
  | PMap m => Forall (fun kv => P (snd kv)) m
  | _ => True
  end -> P (mkValue ty p).

(** Induction on a value with the hypothesis on every child. *)
Fixpoint Value_nested_ind (v : Value) : P v :=
  match v with
  | mkValue ty p =>
      Hnode ty p
        (match p return
               match p with
               | PList vs => Forall P vs
               | PMap m => Forall (fun kv => P (snd kv)) m
               | _ => True
               end
         with
         | PList vs =>
             (fix children (l : list Value) : Forall P l :=
                match l with
                | [] => Forall_nil _
                | c :: l' => Forall_cons _ (Value_nested_ind c) (children l')
                end) vs
         | PMap m =>
             (fix entries (l : list (string * Value))
                : Forall (fun kv => P (snd kv)) l :=
                match l with
                | [] => Forall_nil _
                | (k, c) :: l' =>
                    Forall_cons (k, c) (Value_nested_ind c) (entries l')
                end) m
         | _ => I
         end)
  end.
End ValueInduction.

(** *** Prefixes *)

Lemma isPrefix_refl (p : AttributePath) : isPrefix p p.
Proof. exists []. now rewrite app_nil_r. Qed.

Lemma isPrefix_snoc (p q : AttributePath) (s : AttributePathStep) :
  isPrefix (p ++ [s]) q -> isPrefix p q.
Proof. intros [r ->]. exists (s :: r). now rewrite <- app_assoc. Qed.

Lemma isPrefix_snoc_inv (pre rest : AttributePath) (s step : AttributePathStep) :
  isPrefix (pre ++ [s]) (pre ++ step :: rest) -> s = step.
Proof.
  intros [r H]. rewrite <- app_assoc in H. apply app_inv_head in H.
  cbn in H. congruence.
Qed.

Lemma isPrefix_cons (s : AttributePathStep) (p q : AttributePath) :
  isPrefix (s :: p) (s :: q) <-> isPrefix p q.
Proof.
  split; intros [r H].
  - exists r. now injection H.
  - exists r. cbn. now rewrite H.
Qed.

Lemma not_isPrefix_neq (p q : AttributePath) : ~ isPrefix p q -> p <> q.
Proof. intros H ->. apply H, isPrefix_refl. Qed.

(** *** Shapes *)

Lemma Type_Equal_refl : forall t : Type_, Type_Equal t t = true.
Proof.
  fix IH 1. intros [| | | |x|x|x|xs|xs]; cbn; try reflexivity; try apply IH.
  - induction xs as [|[k x] r IHr]; [reflexivity|].
    now rewrite String.eqb_refl, IH, IHr.
  - induction xs as [|x r IHr]; [reflexivity|].
    now rewrite IH, IHr.
Qed.

Lemma Type_Equal_eq : forall a b : Type_, Type_Equal a b = true -> a = b.
Proof.
  fix IH 1.
  intros [| | | |x|x|x|xs|xs] [| | | |y|y|y|ys|ys]; cbn;
    try discriminate; try reflexivity;
    try (intro H; f_equal; now apply IH).
  - intro H. f_equal. revert ys H.
    induction xs as [|[k x] r IHr]; intros [|[k' y] r'] H;
      try discriminate H; [reflexivity|].
    apply andb_prop in H as [H Hr]. apply andb_prop in H as [Hk Hx].
    apply String.eqb_eq in Hk. apply IH in Hx. subst. f_equal. now apply IHr.
  - intro H. f_equal. revert ys H.
    induction xs as [|x r IHr]; intros [|y r'] H;
      try discriminate H; [reflexivity|].
    apply andb_prop in H as [Hx Hr]. apply IH in Hx. subst. f_equal.
    now apply IHr.
Qed.

Lemma keepsType_same {St : Type} path (val res : Value) (st : St) :
  Value_Type res = Value_Type val ->
  keepsType path val ((res, None), st) = ((res, None), st).
Proof. intro H. cbn. now rewrite H, Type_Equal_refl. Qed.

Lemma keepsType_state {St : Type} path (val : Value)
  (r : (Value * option error) * St) :
  snd (keepsType path val r) = snd r.
Proof.
  destruct r as [[res [e|]] st]; cbn; [reflexivity|].
  now destruct (Type_Equal (Value_Type res) (Value_Type val)).
Qed.

(** *** The child loop *)

Lemma traverse_id {St A : Type} (f : nat -> A -> St -> (A * option error) * St)
  (l : list A) :
  Forall (fun a => forall pos st, f pos a st = ((a, None), st)) l ->
  forall pos st, traverse f pos l st = ((l, None), st).
Proof.
  induction 1 as [|a l Ha _ IH]; intros pos st; cbn.
  - reflexivity.
  - now rewrite Ha, IH.
Qed.

Lemma traverse_rel {St A B : Type} (Inv : St -> Prop) (R : nat -> A -> B -> Prop)
  (f : nat -> A -> St -> (B * option error) * St) (l : list A) :
  Forall (fun a => forall pos st, Inv st ->
            exists b st', f pos a st = ((b, None), st') /\ Inv st' /\ R pos a b) l ->
  forall pos st, Inv st ->
    exists bs st', traverse f pos l st = ((bs, None), st') /\ Inv st' /\
                   Forall2i R pos l bs.
Proof.
  induction 1 as [|a l Ha _ IH]; intros pos st Hst; cbn.
  - exists [], st. repeat split; [assumption | constructor].
  - destruct (Ha pos st Hst) as (b & st1 & -> & Hst1 & Hab).
    destruct (IH (S pos) st1 Hst1) as (bs & st2 & -> & Hst2 & Hbs).
    exists (b :: bs), st2. repeat split; [assumption | now constructor].
Qed.

Lemma Forall2i_nth {A B : Type} (R : nat -> A -> B -> Prop) i l l' :
  Forall2i R i l l' ->
  forall n,
    match nth_error l n, nth_error l' n with
    | Some a, Some b => R (i + n) a b
    | None, None => True
    | _, _ => False
    end.
Proof.
  induction 1 as [i|i a b l l' Hab _ IH]; intros [|n]; cbn; try exact I.
  - now rewrite Nat.add_0_r.
  - specialize (IH n). now rewrite Nat.add_succ_r.
Qed.

Lemma Forall2i_lookup {V : Type} (R : string -> V -> V -> Prop) i
  (m m' : list (string * V)) :
  Forall2i (fun _ kv kv' => fst kv' = fst kv /\ R (fst kv) (snd kv) (snd kv')) i m m' ->
  forall k,
    match lookup k m, lookup k m' with
    | Some c, Some c' => R k c c'
    | None, None => True
    | _, _ => False
    end.
Proof.
  induction 1 as [i|i [k0 c] [k1 c'] m m' [Hk Hc] _ IH]; intros k; cbn.
  - exact I.
  - cbn in Hk, Hc. subst k1. destruct (String.eqb k k0) eqn:E.
    + apply String.eqb_eq in E. now subst.
    + apply IH.
Qed.

(** *** Unfolding the transform *)

Lemma transform_childless {St : Type} (cb : callback St) path val st :
  childless val -> transform cb path val st = keepsType path val (cb path val st).
Proof.
  destruct val as [ty p]. destruct p; cbn; intro H; try reflexivity.
  - now rewrite H.
  - now rewrite H.
Qed.

Lemma transform_sequence {St : Type} (cb : callback St) path ty vs st :
  isSequence ty = true ->
  transform cb path (mkValue ty (PList vs)) st =
    match traverse (fun pos v => transform cb (WithElementKeyInt path (Z.of_nat pos)) v)
            0 vs st with
    | ((_, Some e), st') => ((mkValue ty (PList vs), Some e), st')
    | ((elems, None), st') =>
        keepsType path (mkValue ty (PList vs)) (cb path (mkValue ty (PList elems)) st')
    end.
Proof.
  intro H. cbn [transform]. rewrite H.
  destruct (traverse _ 0 vs st) as [[elems [e|]] st']; reflexivity.
Qed.

Lemma transform_keyed {St : Type} (cb : callback St) path ty step m st :
  keyStep ty = Some step ->
  transform cb path (mkValue ty (PMap m)) st =
    match traverse
            (fun (_ : nat) (kv : string * Value) st0 =>
               match transform cb (path ++ [step (fst kv)]) (snd kv) st0 with
               | ((nv, oe), st1) => (((fst kv, nv), oe), st1)
               end)
            0 m st with
    | ((_, Some e), st') => ((mkValue ty (PMap m), Some e), st')
    | ((elems, None), st') =>
        keepsType path (mkValue ty (PMap m)) (cb path (mkValue ty (PMap elems)) st')
    end.
Proof.
  intro H. cbn [transform]. rewrite H.
  match goal with
  | |- context [traverse ?f 0 m st] =>
      replace (traverse f 0 m st)
        with (traverse
                (fun (_ : nat) (kv : string * Value) st0 =>
                   match transform cb (path ++ [step (fst kv)]) (snd kv) st0 with
                   | ((nv, oe), st1) => (((fst kv, nv), oe), st1)
                   end) 0 m st)
  end.
  - destruct (traverse _ 0 m st) as [[elems [e|]] st']; reflexivity.
  - generalize 0 st. induction m as [|[k v] m IH]; intros i st0; cbn.
    + reflexivity.
    + destruct (transform cb (path ++ [step k]) v st0) as [[nv [e|]] st1];
        [reflexivity|].
      now rewrite IH.
Qed.

(** *** Walking a rebuilt node *)

Lemma ApplyStep_childless (val : Value) (s : AttributePathStep) :
  childless val -> ApplyStep val s = Err ErrInvalidStep.
Proof.
  destruct val as [ty p], s, p; try reflexivity; destruct ty; cbn;
    intro H; try reflexivity; discriminate H.
Qed.


Lemma ApplyStep_sequence ty (vs : list Value) (s : AttributePathStep) :
  isSequence ty = true ->
  ApplyStep (mkValue ty (PList vs)) s =
    match s with
    | ElementKeyInt i =>
        match index i vs with Some c => Ok c | None => Err ErrInvalidStep end
    | _ => Err ErrInvalidStep
    end.
Proof. destruct ty, s; cbn; intro H; try reflexivity; discriminate H. Qed.

Lemma ApplyStep_keyed ty step (s : AttributePathStep) :
  keyStep ty = Some step ->
  (exists k, s = step k /\
     forall m, ApplyStep (mkValue ty (PMap m)) s =
       match lookup k m with Some c => Ok c | None => Err ErrInvalidStep end) \/
  (forall m, ApplyStep (mkValue ty (PMap m)) s = Err ErrInvalidStep).
Proof.
  destruct ty; cbn; intro H; try discriminate H; injection H as <-;
    destruct s as [k|k|i]; try (right; reflexivity); left; now exists k.
Qed.

(** *** Lists with one element replaced *)

Lemma setNth_cons {A : Type} (j : nat) (b a : A) (l : list A) :
  setNth (S j) b (a :: l) = a :: setNth j b l.
Proof. reflexivity. Qed.

Lemma Forall_setNth {A : Type} (P : A -> Prop) (b : A) (l : list A) :
  Forall P l -> P b -> forall j, Forall P (setNth j b l).
Proof.
  intros Hl Hb. induction Hl as [|a l Ha Hl IH]; intros [|j].
  - now repeat constructor.
  - now repeat constructor.
  - now constructor.
  - rewrite setNth_cons. constructor; [assumption|apply IH].
Qed.

Lemma map_fst_setNth {V : Type} (m : list (string * V)) :
  forall j k c c', nth_error m j = Some (k, c) ->
    map fst (setNth j (k, c') m) = map fst m.
Proof.
  induction m as [|[k0 c0] m IH]; intros [|j] k c c' H; try discriminate H.
  - now injection H as -> _.
  - rewrite setNth_cons. cbn. f_equal. now apply (IH j k c c').
Qed.

Lemma Forall2i_same {A : Type} (R : nat -> A -> A -> Prop) (l : list A) :
  forall i,
    (forall n x, nth_error l n = Some x -> R (i + n) x x) -> Forall2i R i l l.
Proof.
  induction l as [|a l IH]; intros i H; constructor.
  - specialize (H 0 a eq_refl). now rewrite Nat.add_0_r in H.
  - apply IH. intros n x Hn. specialize (H (S n) x Hn).
    now rewrite Nat.add_succ_r in H.
Qed.

Lemma Forall2i_setNth {A : Type} (R : nat -> A -> A -> Prop) (l : list A) :
  forall i j a b,
    nth_error l j = Some a -> R (i + j) a b ->
    (forall n x, n <> j -> nth_error l n = Some x -> R (i + n) x x) ->
    Forall2i R i l (setNth j b l).
Proof.
  induction l as [|a0 l IH]; intros i [|j] a b Hj Hab Hrest; try discriminate Hj.
  - injection Hj as ->. rewrite Nat.add_0_r in Hab. constructor; [assumption|].
    apply Forall2i_same. intros n x Hn.
    specialize (Hrest (S n) x (Nat.neq_succ_0 n) Hn).
    now rewrite Nat.add_succ_r in Hrest.
  - rewrite setNth_cons. constructor.
    + specialize (Hrest 0 a0 (Nat.neq_0_succ j) eq_refl).
      now rewrite Nat.add_0_r in Hrest.
    + apply (IH (S i) j a b Hj).
      * now rewrite Nat.add_succ_r in Hab.
      * intros n x Hn Hx. specialize (Hrest (S n) x).
        rewrite Nat.add_succ_r in Hrest. apply Hrest; [lia|assumption].
Qed.

Lemma traverse_id_at {St A : Type} (f : nat -> A -> St -> (A * option error) * St)
  (l : list A) :
  forall pos,
    (forall j a, nth_error l j = Some a ->
       forall st, f (pos + j) a st = ((a, None), st)) ->
    forall st, traverse f pos l st = ((l, None), st).
Proof.
  induction l as [|a l IH]; intros pos H st; cbn.
  - reflexivity.
  - pose proof (H 0 a eq_refl st) as Ha. rewrite Nat.add_0_r in Ha. rewrite Ha.
    rewrite IH; [reflexivity|].
    intros j b Hj st0. specialize (H (S j) b Hj st0).
    now rewrite Nat.add_succ_r in H.
Qed.

(** The child loop when one child changes, and the state with it, and
    every other child comes back as it was. *)
Lemma traverse_one {St A : Type} (f : nat -> A -> St -> (A * option error) * St)
  (l : list A) :
  forall pos j a b st0 st1,
    nth_error l j = Some a ->
    f (pos + j) a st0 = ((b, None), st1) ->
    (forall n x, n <> j -> nth_error l n = Some x ->
       forall st, f (pos + n) x st = ((x, None), st)) ->
    traverse f pos l st0 = ((setNth j b l, None), st1).
Proof.
  induction l as [|a0 l IH]; intros pos [|j] a b st0 st1 Hj Hf Hrest;
    try discriminate Hj.
  - injection Hj as ->. rewrite Nat.add_0_r in Hf. cbn [traverse]. rewrite Hf.
    rewrite traverse_id_at; [reflexivity|].
    intros n x Hn st. specialize (Hrest (S n) x (Nat.neq_succ_0 n) Hn st).
    now rewrite Nat.add_succ_r in Hrest.
  - cbn [traverse].
    pose proof (Hrest 0 a0 (Nat.neq_0_succ j) eq_refl st0) as H0.
    rewrite Nat.add_0_r in H0. rewrite H0.
    rewrite (IH (S pos) j a b st0 st1 Hj).
    + now rewrite setNth_cons.
    + now rewrite Nat.add_succ_r in Hf.
    + intros n x Hn Hx st. specialize (Hrest (S n) x).
      rewrite Nat.add_succ_r in Hrest. apply Hrest; [lia|assumption].
Qed.

(** The child loop when one child fails and the ones before it come back
    as they were. *)
Lemma traverse_stops {St A : Type} (f : nat -> A -> St -> (A * option error) * St)
  (l : list A) :
  forall pos j a b e st0 st1,
    nth_error l j = Some a ->
    f (pos + j) a st0 = ((b, Some e), st1) ->
    (forall n x, n <> j -> nth_error l n = Some x ->
       forall st, f (pos + n) x st = ((x, None), st)) ->
    exists bs, traverse f pos l st0 = ((bs, Some e), st1).
Proof.
  induction l as [|a0 l IH]; intros pos [|j] a b e st0 st1 Hj Hf Hrest;
    try discriminate Hj.
  - injection Hj as ->. rewrite Nat.add_0_r in Hf. cbn [traverse]. rewrite Hf.
    now exists [].
  - cbn [traverse].
    pose proof (Hrest 0 a0 (Nat.neq_0_succ j) eq_refl st0) as H0.
    rewrite Nat.add_0_r in H0. rewrite H0.
    destruct (IH (S pos) j a b e st0 st1 Hj) as [bs ->].
    + now rewrite Nat.add_succ_r in Hf.
    + intros n x Hn Hx st. specialize (Hrest (S n) x).
      rewrite Nat.add_succ_r in Hrest. apply Hrest; [lia|assumption].
    + now exists (a0 :: bs).
Qed.

Lemma traverse_invariant {St A B : Type} (Inv : St -> Prop)
  (f : nat -> A -> St -> (B * option error) * St) (l : list A) :
  Forall (fun a => forall pos st, Inv st -> Inv (snd (f pos a st))) l ->
  forall pos st, Inv st -> Inv (snd (traverse f pos l st)).
Proof.
  induction 1 as [|a l Ha _ IH]; intros pos st Hst; cbn.
  - exact Hst.
  - specialize (Ha pos st Hst).
    destruct (f pos a st) as [[b [e|]] st1]; cbn in *; [assumption|].
    specialize (IH (S pos) st1 Ha).
    now destruct (traverse f (S pos) l st1) as [[bs oe] st2].
Qed.

(** *** Keys and positions *)

Lemma lookup_In_unique {V : Type} (k : string) (c : V) (m : list (string * V)) :
  NoDup (map fst m) -> In (k, c) m -> lookup k m = Some c.
Proof.
  induction m as [|[k0 c0] m IH]; cbn; [intros _ []|]. intros Hnd [H|H].
  - injection H as -> ->. now rewrite String.eqb_refl.
  - inversion Hnd as [|? ? Hnot Hnd']; subst.
    destruct (String.eqb k k0) eqn:E.
    + apply String.eqb_eq in E. subst k0. exfalso. apply Hnot.
      apply in_map_iff. now exists (k, c).
    + now apply IH.
Qed.

Lemma lookup_position {V : Type} (k : string) (c : V) (m : list (string * V)) :
  lookup k m = Some c -> exists j, nth_error m j = Some (k, c).
Proof.
  induction m as [|[k0 c0] m IH]; cbn; [discriminate|].
  destruct (String.eqb k k0) eqn:E.
  - apply String.eqb_eq in E. subst k0. intros [= ->]. now exists 0.
  - intro H. destruct (IH H) as [j Hj]. now exists (S j).
Qed.

Lemma unique_key_position {V : Type} (m : list (string * V)) j n k c k' x :
  NoDup (map fst m) ->
  nth_error m j = Some (k, c) -> nth_error m n = Some (k', x) -> n <> j -> k' <> k.
Proof.
  intros Hnd Hj Hn Hneq ->. apply Hneq.
  apply (proj1 (NoDup_nth_error (map fst m)) Hnd).
  - rewrite length_map. apply nth_error_Some. congruence.
  - now rewrite !nth_error_map, Hj, Hn.
Qed.

(** *** Away from the path of the callback *)

Section Setter.

Context {St : Type}.
Variable cb : callback St.
Variable target : AttributePath.

Hypothesis cb_miss : forall q v st, q <> target -> cb q v st = ((v, None), st).

(** Away from the route to [target] the transform changes nothing. *)
Lemma transform_off_route (val : Value) :
  forall pre st, ~ isPrefix pre target -> transform cb pre val st = ((val, None), st).
Proof.
  induction val as [ty p IH] using Value_nested_ind. intros pre st Hpre.
  assert (Hcb : forall v s, Value_Type v = ty ->
            keepsType pre (mkValue ty p) (cb pre v s) = ((v, None), s)).
  { intros v s Hv. rewrite cb_miss by now apply not_isPrefix_neq.
    now apply keepsType_same. }
  assert (Hsub : forall s, ~ isPrefix (pre ++ [s]) target).
  { intros s H. apply Hpre. now apply isPrefix_snoc in H. }
  destruct p as [| | | | |vs|m];
    try (rewrite transform_childless by exact I; now apply Hcb).
  - destruct (isSequence ty) eqn:Hseq.
    + rewrite transform_sequence by assumption.
      rewrite traverse_id; [now apply Hcb|].
      eapply Forall_impl; [|exact IH]. cbn. intros v Hv pos st0.
      apply Hv, Hsub.
    + rewrite transform_childless by exact Hseq. now apply Hcb.
  - destruct (keyStep ty) as [step|] eqn:Hkey.
    + rewrite (transform_keyed _ _ _ step) by assumption.
      rewrite traverse_id; [now apply Hcb|].
      eapply Forall_impl; [|exact IH]. cbn. intros [k v] Hv pos st0. cbn in *.
      now rewrite Hv by apply Hsub.
    + rewrite transform_childless by exact Hkey. now apply Hcb.
Qed.

(** At [target] itself the children come back as they were, and the
    callback gets the node as it is. *)
Lemma transform_at_target (val : Value) (st : St) :
  transform cb target val st = keepsType target val (cb target val st).
Proof.
  assert (Hsub : forall s, ~ isPrefix (target ++ [s]) target).
  { intros s [r H]. rewrite <- app_assoc in H.
    apply (f_equal (@length _)) in H. rewrite length_app in H. cbn in H. lia. }
  destruct val as [ty p].
  destruct p as [| | | | |vs|m];
    try (now rewrite transform_childless by exact I).
  - destruct (isSequence ty) eqn:Hseq;
      [|now rewrite transform_childless by exact Hseq].
    rewrite transform_sequence by assumption.
    rewrite traverse_id; [reflexivity|].
    apply Forall_forall. intros v _ pos st0.
    apply transform_off_route, Hsub.
  - destruct (keyStep ty) as [mk|] eqn:Hkey;
      [|now rewrite transform_childless by exact Hkey].
    rewrite (transform_keyed _ _ _ mk) by assumption.
    rewrite traverse_id; [reflexivity|].
    apply Forall_forall. intros [k v] _ pos st0. cbn.
    now rewrite transform_off_route by apply Hsub.
Qed.

End Setter.

(** *** What a walk sees after a replacement *)

Section Replaced.

Variable new : Value.

Local Abbreviation sameChild := (sameChildAt new).
Local Abbreviation sameSteps := (sameStepsAt new).

Lemma replacedAt_here (val : Value) : replacedAt new [] val new.
Proof.
  split.
  - intros _. reflexivity.
  - intros q _ Hq. exfalso. apply Hq. now exists q.
Qed.

Lemma replacedAt_step step rest val val' :
  sameSteps step rest val val' -> replacedAt new (step :: rest) val val'.
Proof.
  intro H. split.
  - intros [old Hold]. unfold arrives in *. cbn in *.
    specialize (H step).
    destruct (ApplyStep val step) as [c|e]; [|discriminate Hold].
    destruct (ApplyStep val' step) as [c'|e']; [|contradiction].
    destruct H as [H _]. apply (H eq_refl). now exists old.
  - intros [|s q] Hq1 Hq2.
    + exfalso. apply Hq1. now exists (step :: rest).
    + cbn. specialize (H s).
      destruct (ApplyStep val s) as [c|e], (ApplyStep val' s) as [c'|e'];
        try contradiction.
      * destruct (step_eq_dec s step) as [->|Hs].
        -- destruct H as [H _]. apply (H eq_refl).
           ++ intro Hp. apply Hq1. now apply isPrefix_cons.
           ++ intro Hp. apply Hq2. now apply isPrefix_cons.
        -- destruct H as [_ H]. now rewrite (H Hs).
      * now subst.
Qed.

Lemma sameSteps_sequence step rest ty vs vs' :
  isSequence ty = true ->
  Forall2i (fun pos => sameChild step rest (ElementKeyInt (Z.of_nat pos))) 0 vs vs' ->
  sameSteps step rest (mkValue ty (PList vs)) (mkValue ty (PList vs')).
Proof.
  intros Hseq Hrel s. rewrite !ApplyStep_sequence by assumption.
  destruct s as [k|k|i]; try reflexivity.
  unfold index. destruct (i <? 0)%Z eqn:Hi; [reflexivity|].
  apply Z.ltb_ge in Hi.
  pose proof (Forall2i_nth _ _ _ _ Hrel (Z.to_nat i)) as H.
  destruct (nth_error vs (Z.to_nat i)), (nth_error vs' (Z.to_nat i));
    try contradiction; [|reflexivity].
  cbn in H. now rewrite Z2Nat.id in H.
Qed.

Lemma sameSteps_keyed step rest ty mk m m' :
  keyStep ty = Some mk ->
  Forall2i (fun _ kv kv' =>
              fst kv' = fst kv /\
              sameChild step rest (mk (fst kv)) (snd kv) (snd kv')) 0 m m' ->
  sameSteps step rest (mkValue ty (PMap m)) (mkValue ty (PMap m')).
Proof.
  intros Hkey Hrel s.
  destruct (ApplyStep_keyed ty mk s Hkey) as [(k & -> & Hk)|Hno].
  - rewrite !Hk.
    pose proof (Forall2i_lookup (fun k => sameChild step rest (mk k)) _ _ _ Hrel k) as H.
    destruct (lookup k m), (lookup k m'); try contradiction; [exact H|reflexivity].
  - now rewrite !Hno.
Qed.

End Replaced.

Lemma keyStep_injective ty mk k k' :
  keyStep ty = Some mk -> mk k = mk k' -> k = k'.
Proof.
  destruct ty; cbn; intro H; try discriminate H; injection H as <-;
    now intros [= ->].
Qed.

(** *** A callback that answers at one node, once *)

Section Once.

Context {St : Type}.
Variable cb : callback St.
Variable target : AttributePath.
Variables old new : Value.
Variables st0 st1 : St.

Hypothesis cb_miss : forall q v st, q <> target -> cb q v st = ((v, None), st).
Hypothesis cb_hit : cb target old st0 = ((new, None), st1).
Hypothesis same_type : Value_Type new = Value_Type old.

(** With unique keys there is one node at [target], the one the walk
    arrives at: the transform succeeds, moves the state from [st0] to
    [st1], puts [new] in the place of that node, and changes nothing
    else. *)
Lemma transform_on_route (val : Value) :
  forall rest pre,
    target = pre ++ rest ->
    uniqueKeys val ->
    arrives val rest old ->
    exists val',
      transform cb pre val st0 = ((val', None), st1) /\
      replacedAt new rest val val' /\
      (uniqueKeys new -> uniqueKeys val').
Proof.
  induction val as [ty p IH] using Value_nested_ind.
  intros rest pre Htarget Huniq Harr.
  destruct rest as [|step rest].
  - (* the node at [target] *)
    rewrite app_nil_r in Htarget. subst pre.
    assert (mkValue ty p = old) as Hold by (unfold arrives in Harr; cbn in Harr; congruence).
    pose proof (transform_at_target cb target cb_miss (mkValue ty p) st0) as Hplain.
    exists new. rewrite Hplain, Hold, cb_hit.
    split; [now apply keepsType_same|]. split; [apply replacedAt_here|auto].
  - (* a node above [target] *)
    assert (Hpre : pre <> target).
    { intro H. apply (f_equal (@length _)) in Htarget.
      rewrite H, length_app in Htarget. cbn in Htarget. lia. }
    assert (Hcb : forall v s, Value_Type v = ty ->
              keepsType pre (mkValue ty p) (cb pre v s) = ((v, None), s)).
    { intros v s Hv. rewrite cb_miss by assumption. now apply keepsType_same. }
    assert (Hoff : forall s c st, s <> step ->
               transform cb (pre ++ [s]) c st = ((c, None), st)).
    { intros s c st Hs. apply (transform_off_route cb target cb_miss).
      intro H. subst target. now apply isPrefix_snoc_inv in H. }
    unfold arrives in Harr. cbn [WalkAttributePath] in Harr.
    destruct (ApplyStep (mkValue ty p) step) as [c|e] eqn:Hstep;
      [|discriminate Harr].
    fold (arrives c rest old) in Harr.
    destruct p as [| | | | |vs|m];
      try (now rewrite ApplyStep_childless in Hstep by exact I).
    + destruct (isSequence ty) eqn:Hseq;
        [|now rewrite ApplyStep_childless in Hstep by exact Hseq].
      rewrite ApplyStep_sequence in Hstep by assumption.
      destruct step as [k|k|i]; try discriminate Hstep.
      unfold index in Hstep. destruct (Z.ltb_spec i 0) as [Hi|Hi];
        [discriminate Hstep|].
      destruct (nth_error vs (Z.to_nat i)) as [c0|] eqn:Hnth;
        [|discriminate Hstep].
      injection Hstep as ->.
      inversion Huniq as [| | | | |ty0 vs0 Hvs|]; subst.
      assert (Hi' : Z.of_nat (Z.to_nat i) = i) by now apply Z2Nat.id.
      destruct (proj1 (Forall_forall _ _) IH c (nth_error_In _ _ Hnth)
                  rest (pre ++ [ElementKeyInt i]))
        as (c' & Htr & Hrep & Hkeep).
      { now rewrite <- app_assoc. }
      { apply (proj1 (Forall_forall _ _) Hvs). now apply nth_error_In in Hnth. }
      { exact Harr. }
      exists (mkValue ty (PList (setNth (Z.to_nat i) c' vs))).
      rewrite transform_sequence by assumption.
      rewrite (traverse_one _ vs 0 (Z.to_nat i) c c' st0 st1 Hnth).
      * split; [now apply Hcb|]. split.
        -- apply replacedAt_step, sameSteps_sequence; [assumption|].
           apply (Forall2i_setNth _ vs 0 (Z.to_nat i) c c' Hnth).
           ++ cbn [Nat.add]. rewrite Hi'. split; [intros _; exact Hrep|].
              intro H. now contradiction H.
           ++ intros n x Hn _. cbn [Nat.add]. split; [|reflexivity].
              intros [= H]. exfalso. apply Hn. rewrite <- H. now rewrite Nat2Z.id.
        -- intro Hnew. constructor. apply Forall_setNth; [assumption|auto].
      * cbn [Nat.add]. unfold WithElementKeyInt. now rewrite Hi'.
      * intros n x Hn _ st. cbn [Nat.add]. apply Hoff.
        intros [= H]. apply Hn. rewrite <- H. now rewrite Nat2Z.id.
    + destruct (keyStep ty) as [mk|] eqn:Hkey;
        [|now rewrite ApplyStep_childless in Hstep by exact Hkey].
      destruct (ApplyStep_keyed ty mk step Hkey) as [(k & -> & Hk)|Hno];
        [|now rewrite Hno in Hstep].
      rewrite Hk in Hstep.
      destruct (lookup k m) as [c0|] eqn:Hlook; [|discriminate Hstep].
      injection Hstep as ->.
      destruct (lookup_position k c m Hlook) as [j Hj].
      inversion Huniq as [| | | | | |ty0 m0 Hnd Hm]; subst.
      destruct (proj1 (Forall_forall _ _) IH (k, c) (nth_error_In _ _ Hj)
                  rest (pre ++ [mk k]))
        as (c' & Htr & Hrep & Hkeep).
      { now rewrite <- app_assoc. }
      { apply (proj1 (Forall_forall _ _) Hm (k, c)). now apply nth_error_In in Hj. }
      { exact Harr. }
      cbn [snd] in Htr, Hrep, Hkeep.
      exists (mkValue ty (PMap (setNth j (k, c') m))).
      rewrite (transform_keyed _ _ _ mk) by assumption.
      rewrite (traverse_one _ m 0 j (k, c) (k, c') st0 st1 Hj).
      * split; [now apply Hcb|]. split.
        -- apply replacedAt_step, (sameSteps_keyed _ _ _ _ mk); [assumption|].
           apply (Forall2i_setNth _ m 0 j (k, c) (k, c') Hj).
           ++ cbn [fst snd]. split; [reflexivity|].
              split; [intros _; exact Hrep|]. intro H. now contradiction H.
           ++ intros n [k' x] Hn Hx. cbn [fst snd]. split; [reflexivity|].
              split; [|reflexivity]. intro H. exfalso.
              apply (keyStep_injective ty mk _ _ Hkey) in H.
              exact (unique_key_position m j n k c k' x Hnd Hj Hx Hn H).
        -- intro Hnew. constructor.
           ++ now rewrite (map_fst_setNth m j k c c').
           ++ apply Forall_setNth; [assumption|]. cbn [snd]. auto.
      * cbn [fst snd]. now rewrite Htr.
      * intros n [k' x] Hn Hx st. cbn [fst snd].
        rewrite Hoff; [reflexivity|]. intro H.
        apply (keyStep_injective ty mk _ _ Hkey) in H.
        exact (unique_key_position m j n k c k' x Hnd Hj Hx Hn H).
Qed.

End Once.

(** *** A callback whose answer has another type *)

Section Refused.

Context {St : Type}.
Variable cb : callback St.
Variable target : AttributePath.
Variables old new : Value.
Variables st0 st1 : St.

Hypothesis cb_miss : forall q v st, q <> target -> cb q v st = ((v, None), st).
Hypothesis cb_hit : cb target old st0 = ((new, None), st1).
Hypothesis other_type : Type_Equal (Value_Type new) (Value_Type old) = false.

(** The answer for the node at [target] is refused there, and every node
    above hands itself back next to the error: the transform fails and
    gives back the tree it was given. *)
Lemma transform_on_route_refused (val : Value) :
  forall rest pre,
    target = pre ++ rest ->
    uniqueKeys val ->
    arrives val rest old ->
    exists e, transform cb pre val st0 = ((val, Some e), st1).
Proof.
  induction val as [ty p IH] using Value_nested_ind.
  intros rest pre Htarget Huniq Harr.
  destruct rest as [|step rest].
  - rewrite app_nil_r in Htarget. subst pre.
    assert (mkValue ty p = old) as Hold
      by (unfold arrives in Harr; cbn in Harr; congruence).
    rewrite (transform_at_target cb target cb_miss), Hold, cb_hit.
    cbn [keepsType]. rewrite other_type. now eexists.
  - assert (Hoff : forall s c st, s <> step ->
               transform cb (pre ++ [s]) c st = ((c, None), st)).
    { intros s c st Hs. apply (transform_off_route cb target cb_miss).
      intro H. subst target. now apply isPrefix_snoc_inv in H. }
    unfold arrives in Harr. cbn [WalkAttributePath] in Harr.
    destruct (ApplyStep (mkValue ty p) step) as [c|e] eqn:Hstep;
      [|discriminate Harr].
    fold (arrives c rest old) in Harr.
    destruct p as [| | | | |vs|m];
      try (now rewrite ApplyStep_childless in Hstep by exact I).
    + destruct (isSequence ty) eqn:Hseq;
        [|now rewrite ApplyStep_childless in Hstep by exact Hseq].
      rewrite ApplyStep_sequence in Hstep by assumption.
      destruct step as [k|k|i]; try discriminate Hstep.
      unfold index in Hstep. destruct (Z.ltb_spec i 0) as [Hi|Hi];
        [discriminate Hstep|].
      destruct (nth_error vs (Z.to_nat i)) as [c0|] eqn:Hnth;
        [|discriminate Hstep].
      injection Hstep as ->.
      inversion Huniq as [| | | | |ty0 vs0 Hvs|]; subst.
      assert (Hi' : Z.of_nat (Z.to_nat i) = i) by now apply Z2Nat.id.
      destruct (proj1 (Forall_forall _ _) IH c (nth_error_In _ _ Hnth)
                  rest (pre ++ [ElementKeyInt i]))
        as (e & Htr).
      { now rewrite <- app_assoc. }
      { apply (proj1 (Forall_forall _ _) Hvs). now apply nth_error_In in Hnth. }
      { exact Harr. }
      exists e. rewrite transform_sequence by assumption.
      destruct (traverse_stops
                  (fun pos v => transform cb (WithElementKeyInt pre (Z.of_nat pos)) v)
                  vs 0 (Z.to_nat i) c c e st0 st1 Hnth)
        as [bs ->]; [| |reflexivity].
      * cbn [Nat.add]. unfold WithElementKeyInt. now rewrite Hi'.
      * intros n x Hn _ st. cbn [Nat.add]. apply Hoff.
        intros [= H]. apply Hn. rewrite <- H. now rewrite Nat2Z.id.
    + destruct (keyStep ty) as [mk|] eqn:Hkey;
        [|now rewrite ApplyStep_childless in Hstep by exact Hkey].
      destruct (ApplyStep_keyed ty mk step Hkey) as [(k & -> & Hk)|Hno];
        [|now rewrite Hno in Hstep].
      rewrite Hk in Hstep.
      destruct (lookup k m) as [c0|] eqn:Hlook; [|discriminate Hstep].
      injection Hstep as ->.
      destruct (lookup_position k c m Hlook) as [j Hj].
      inversion Huniq as [| | | | | |ty0 m0 Hnd Hm]; subst.
      destruct (proj1 (Forall_forall _ _) IH (k, c) (nth_error_In _ _ Hj)
                  rest (pre ++ [mk k]))
        as (e & Htr).
      { now rewrite <- app_assoc. }
      { apply (proj1 (Forall_forall _ _) Hm (k, c)). now apply nth_error_In in Hj. }
      { exact Harr. }
      cbn [snd] in Htr.
      exists e. rewrite (transform_keyed _ _ _ mk) by assumption.
      destruct (traverse_stops
                  (fun (_ : nat) (kv : string * Value) st =>
                     match transform cb (pre ++ [mk (fst kv)]) (snd kv) st with
                     | ((nv, oe), st') => (((fst kv, nv), oe), st')
                     end)
                  m 0 j (k, c) (k, c) e st0 st1 Hj)
        as [bs ->]; [| |reflexivity].
      * cbn [fst snd]. now rewrite Htr.
      * intros n [k' x] Hn Hx st. cbn [fst snd].
        rewrite Hoff; [reflexivity|]. intro H.
        apply (keyStep_injective ty mk _ _ Hkey) in H.
        exact (unique_key_position m j n k c k' x Hnd Hj Hx Hn H).
Qed.

End Refused.

(** *** A path that leads to no node *)

(** The walk either arrives, or stops with an error at a step of the path
    and reports that step and the ones behind it. *)
Lemma WalkAttributePath_outcome (path : AttributePath) :
  forall v,
    (exists node, arrives v path node) \/
    (exists done remaining e,
       path = done ++ remaining /\ remaining <> [] /\
       WalkAttributePath v path = (None, remaining, Some e)).
Proof.
  induction path as [|step rest IH]; intro v.
  - left. now exists v.
  - unfold arrives. cbn [WalkAttributePath].
    destruct (ApplyStep v step) as [c|e] eqn:E.
    + destruct (IH c) as [[node H]|(done & remaining & e & -> & Hne & H)].
      * left. now exists node.
      * right. now exists (step :: done), remaining, e.
    + right. exists [], (step :: rest), e. repeat split. discriminate.
Qed.

Section Unreached.

Context {St : Type}.
Variable cb : callback St.
Variable target : AttributePath.
Hypothesis cb_miss : forall q v st, q <> target -> cb q v st = ((v, None), st).

(** When the keys are unique and the walk to [target] fails, no node of
    the tree has the path [target], and the transform changes nothing. *)
Lemma transform_unreached (val : Value) :
  forall rest pre st,
    target = pre ++ rest ->
    uniqueKeys val ->
    (forall node, ~ arrives val rest node) ->
    transform cb pre val st = ((val, None), st).
Proof.
  induction val as [ty p IH] using Value_nested_ind.
  intros rest pre st Htarget Huniq Hno.
  destruct rest as [|step rest].
  { exfalso. apply (Hno (mkValue ty p)). reflexivity. }
  assert (Hcb : forall s,
             keepsType pre (mkValue ty p) (cb pre (mkValue ty p) s)
             = ((mkValue ty p, None), s)).
  { intro s. rewrite cb_miss; [now apply keepsType_same|]. intro H.
    apply (f_equal (@length _)) in Htarget. rewrite H, length_app in Htarget.
    cbn in Htarget. lia. }
  assert (Hchild : forall s c,
             uniqueKeys c ->
             (forall rest0 pre0 st0, target = pre0 ++ rest0 -> uniqueKeys c ->
                (forall node, ~ arrives c rest0 node) ->
                transform cb pre0 c st0 = ((c, None), st0)) ->
             (s = step -> ApplyStep (mkValue ty p) step = Ok c) ->
             forall st0, transform cb (pre ++ [s]) c st0 = ((c, None), st0)).
  { intros s c Hc IHc Hstep st0. destruct (step_eq_dec s step) as [->|Hs].
    - apply (IHc rest); [now rewrite <- app_assoc | assumption |].
      intros node Harr. apply (Hno node). unfold arrives in *. cbn.
      now rewrite (Hstep eq_refl).
    - apply (transform_off_route cb target cb_miss). intro H. subst target.
      now apply isPrefix_snoc_inv in H. }
  destruct p as [| | | | |vs|m];
    try (rewrite transform_childless by exact I; apply Hcb).
  - destruct (isSequence ty) eqn:Hseq;
      [|rewrite transform_childless by exact Hseq; apply Hcb].
    rewrite transform_sequence by assumption.
    inversion Huniq as [| | | | |ty0 vs0 Hvs|]; subst.
    rewrite traverse_id_at; [apply Hcb|].
    intros j c Hj st0. cbn [Nat.add].
    apply Hchild.
    + rewrite Forall_forall in Hvs. apply Hvs. now apply nth_error_In in Hj.
    + rewrite Forall_forall in IH. apply IH. now apply nth_error_In in Hj.
    + intros <-. rewrite ApplyStep_sequence by assumption.
      unfold index. destruct (Z.ltb_spec (Z.of_nat j) 0) as [H|_]; [lia|].
      now rewrite Nat2Z.id, Hj.
  - destruct (keyStep ty) as [mk|] eqn:Hkey;
      [|rewrite transform_childless by exact Hkey; apply Hcb].
    rewrite (transform_keyed _ _ _ mk) by assumption.
    inversion Huniq as [| | | | | |ty0 m0 Hnd Hm]; subst.
    rewrite traverse_id_at; [apply Hcb|].
    intros j [k c] Hj st0. cbn [fst snd].
    rewrite Hchild; [reflexivity| | |].
    + rewrite Forall_forall in Hm. apply (Hm (k, c)). now apply nth_error_In in Hj.
    + rewrite Forall_forall in IH. apply (IH (k, c)). now apply nth_error_In in Hj.
    + intros <-.
      destruct (ApplyStep_keyed ty mk (mk k) Hkey) as [(k' & Hk & ->)|Hnone].
      * assert (k' = k) as ->.
        { destruct ty; cbn in Hkey; try discriminate Hkey;
            injection Hkey as <-; now injection Hk. }
        rewrite (lookup_In_unique k c m Hnd); [reflexivity|].
        now apply nth_error_In in Hj.
      * exfalso.
        destruct ty; cbn in Hkey; try discriminate Hkey; injection Hkey as <-;
          specialize (Hnone [(k, c)]); cbn in Hnone;
          rewrite String.eqb_refl in Hnone; discriminate Hnone.
Qed.

End Unreached.

(** *** Callbacks that never fail *)

(** A callback that hands every node back leaves the tree as it is. *)
Lemma transform_identity {St : Type} (cb : callback St) (val : Value) :
  (forall q v st, exists st', cb q v st = ((v, None), st')) ->
  forall pre st, exists st', transform cb pre val st = ((val, None), st').
Proof.
  intro Hcb. induction val as [ty p IH] using Value_nested_ind. intros pre st.
  assert (Hkeep : forall v s, Value_Type v = ty ->
            exists st', keepsType pre (mkValue ty p) (cb pre v s) = ((v, None), st')).
  { intros v s Hv. destruct (Hcb pre v s) as [st' ->]. exists st'.
    now apply keepsType_same. }
  destruct p as [| | | | |vs|m];
    try (rewrite transform_childless by exact I; now apply Hkeep).
  - destruct (isSequence ty) eqn:Hseq;
      [|rewrite transform_childless by exact Hseq; now apply Hkeep].
    rewrite transform_sequence by assumption.
    destruct (traverse_rel (fun _ => True) (fun _ v v' => v' = v)
                (fun pos v => transform cb (WithElementKeyInt pre (Z.of_nat pos)) v)
                vs) with (pos := 0) (st := st)
      as (vs' & st' & -> & _ & Hrel); [|exact I|].
    + eapply Forall_impl; [|exact IH]. cbn. intros v Hv pos st0 _.
      destruct (Hv (WithElementKeyInt pre (Z.of_nat pos)) st0) as [st' ->].
      now exists v, st'.
    + assert (vs' = vs) as ->.
      { clear -Hrel. induction Hrel; [reflexivity|]. now subst. }
      now apply Hkeep.
  - destruct (keyStep ty) as [mk|] eqn:Hkey;
      [|rewrite transform_childless by exact Hkey; now apply Hkeep].
    rewrite (transform_keyed _ _ _ mk) by assumption.
    destruct (traverse_rel (fun _ => True) (fun _ kv kv' => kv' = kv)
                (fun (_ : nat) (kv : string * Value) st0 =>
                   match transform cb (pre ++ [mk (fst kv)]) (snd kv) st0 with
                   | ((nv, oe), st1) => (((fst kv, nv), oe), st1)
                   end)
                m) with (pos := 0) (st := st)
      as (m' & st' & -> & _ & Hrel); [|exact I|].
    + eapply Forall_impl; [|exact IH]. cbn. intros [k v] Hv pos st0 _. cbn in *.
      destruct (Hv (pre ++ [mk k]) st0) as [st' ->].
      now exists (k, v), st'.
    + assert (m' = m) as ->.
      { clear -Hrel. induction Hrel; [reflexivity|]. now subst. }
      now apply Hkeep.
Qed.

(** When the callback never fails, a failed transform hands back the tree
    it was given. *)
Lemma transform_failure_returns_input {St : Type} (cb : callback St) :
  (forall q v st, snd (fst (cb q v st)) = None) ->
  forall val pre st val' e st',
    transform cb pre val st = ((val', Some e), st') -> val' = val.
Proof.
  intros Hcb val pre st val' e st'.
  assert (Hkeep : forall v s,
             keepsType pre val (cb pre v s) = ((val', Some e), st') -> val' = val).
  { intros v s. specialize (Hcb pre v s).
    destruct (cb pre v s) as [[res oe] s']. cbn in Hcb. subst oe. cbn.
    destruct (Type_Equal (Value_Type res) (Value_Type val)); congruence. }
  destruct val as [ty p].
  destruct p as [| | | | |vs|m];
    try (rewrite transform_childless by exact I; now apply Hkeep).
  - destruct (isSequence ty) eqn:Hseq;
      [|rewrite transform_childless by exact Hseq; now apply Hkeep].
    rewrite transform_sequence by assumption.
    destruct (traverse _ 0 vs st) as [[elems [e0|]] s']; [congruence|].
    now apply Hkeep.
  - destruct (keyStep ty) as [mk|] eqn:Hkey;
      [|rewrite transform_childless by exact Hkey; now apply Hkeep].
    rewrite (transform_keyed _ _ _ mk) by assumption.
    destruct (traverse _ 0 m st) as [[elems [e0|]] s']; [congruence|].
    now apply Hkeep.
Qed.

(** What every call of the callback keeps of the threaded state, the
    transform keeps, however it ends. *)
Lemma transform_invariant {St : Type} (Inv : St -> Prop) (cb : callback St) :
  (forall q v st, Inv st -> Inv (snd (cb q v st))) ->
  forall val pre st, Inv st -> Inv (snd (transform cb pre val st)).
Proof.
  intro Hcb. induction val as [ty p IH] using Value_nested_ind. intros pre st Hst.
  assert (Hkeep : forall v s, Inv s ->
            Inv (snd (keepsType pre (mkValue ty p) (cb pre v s)))).
  { intros v s Hs. rewrite keepsType_state. now apply Hcb. }
  destruct p as [| | | | |vs|m];
    try (rewrite transform_childless by exact I; now apply Hkeep).
  - destruct (isSequence ty) eqn:Hseq;
      [|rewrite transform_childless by exact Hseq; now apply Hkeep].
    rewrite transform_sequence by assumption.
    assert (H : Inv (snd (traverse
                (fun pos v => transform cb (WithElementKeyInt pre (Z.of_nat pos)) v)
                0 vs st))).
    { apply traverse_invariant; [|assumption].
      eapply Forall_impl; [|exact IH]. cbn. intros v Hv pos st0 Hst0.
      now apply Hv. }
    destruct (traverse _ 0 vs st) as [[elems [e0|]] s']; cbn in H; [assumption|].
    now apply Hkeep.
  - destruct (keyStep ty) as [mk|] eqn:Hkey;
      [|rewrite transform_childless by exact Hkey; now apply Hkeep].
    rewrite (transform_keyed _ _ _ mk) by assumption.
    assert (H : Inv (snd (traverse
                (fun (_ : nat) (kv : string * Value) st0 =>
                   match transform cb (pre ++ [mk (fst kv)]) (snd kv) st0 with
                   | ((nv, oe), st1) => (((fst kv, nv), oe), st1)
                   end)
                0 m st))).
    { apply traverse_invariant; [|assumption].
      eapply Forall_impl; [|exact IH]. cbn. intros [k v] Hv pos st0 Hst0.
      cbn in *. specialize (Hv (pre ++ [mk k]) st0 Hst0).
      now destruct (transform cb (pre ++ [mk k]) v st0) as [[nv oe] st1]. }
    destruct (traverse _ 0 m st) as [[elems [e0|]] s']; cbn in H; [assumption|].
    now apply Hkeep.
Qed.

End treeFacts.

(** ** The facade against arbitrary collaborators *)

Section FacadeProperties.

Import tftypes diag diagFacts pathFacts.

Context {AttrValue Host Target : Type}.
Variable ToTerraformValue : AttrValue -> result (Payload Value).
Variable FromValue :
  AttrType AttrValue -> Interface Host -> AttributePath -> option AttrValue * Diagnostics.
Variable ValueAs : AttrValue -> Target -> Target * Diagnostics.
Variable Walk : Value -> AttributePath -> option Value * AttributePath * option error.
Variable Transform :
  forall St : Type, Value -> callback St -> St -> (Value * option error) * St.

Local Abbreviation getValue := (getAttributeValue Walk).
Local Abbreviation GetAt := (GetAttribute ValueAs Walk).
Local Abbreviation SetAll := (Set_ ToTerraformValue FromValue).
Local Abbreviation SetAt := (SetAttribute ToTerraformValue FromValue Transform).

Lemma setRaw_Raw (s : State AttrValue) : setRaw s (Raw s) = s.
Proof. now destruct s. Qed.

Lemma reattribute_eq (path : AttributePath) (d : Diagnostic) :
  reattribute path d = mkDiagnostic (Severity_ d) (Summary d) (Detail d) (Some path).
Proof. destruct d as [[] sm dt pa]; reflexivity. Qed.

(** On an entirely null tree the lookup of a schema-valid path stops before
    the walk: no value, no diagnostics. *)
Lemma getAttributeValue_null (s : State AttrValue) path attrType :
  AttributeTypeAtPath (Schema s) path = Ok attrType ->
  IsNull (Raw s) = true ->
  getValue s path = (None, []).
Proof.
  intros Hty Hnull. unfold getAttributeValue. now rewrite Hty, Hnull.
Qed.

(** C1 (amended): after [RemoveResource], for a schema-valid path,
    [getAttributeValue] gives no value and no diagnostics, and
    [GetAttribute] turns the missing value into exactly one Error
    diagnostic at the path, leaving the target as it was. *)
Theorem RemoveResource_then_GetAttribute
  (s : State AttrValue) (path : AttributePath) (target : Target) attrType :
  AttributeTypeAtPath (Schema s) path = Ok attrType ->
  getValue (RemoveResource s) path = (None, []) /\
  GetAt (RemoveResource s) path target =
    (target,
     [NewAttributeErrorDiagnostic path "State Read Error"
        (readPreamble ^^ missingValueDetail)]).
Proof.
  intro Hty.
  assert (Hget : getValue (RemoveResource s) path = (None, [])).
  { now apply getAttributeValue_null with attrType. }
  split; [exact Hget|].
  unfold GetAttribute. now rewrite Hget.
Qed.

(** C2: [Set] with the nil interface returns exactly one diagnostic, of
    Error severity, that names [State.RemoveResource], and hands the facade
    back as it was. *)
Theorem Set_nil_is_rejected (s : State AttrValue) :
  SetAll s None = Returns (s, [nilStateDiagnostic]) /\
  Severity_ nilStateDiagnostic = SeverityError /\
  HasError [nilStateDiagnostic] = true /\
  exists before after,
    Detail nilStateDiagnostic = before ^^ "call State.RemoveResource" ^^ after.
Proof.
  repeat split.
  exists (writePreamble ^^ "cannot set nil as entire state; to remove a resource from state, ").
  exists ", instead". reflexivity.
Qed.

(** C8: [RemoveResource] installs the null value of the schema's top-level
    type, whatever the tree was, keeps the schema, and is idempotent; the
    operation has no diagnostics to return, and the null tree is no error
    state: looking up a path of the schema in it reports nothing. *)
Theorem RemoveResource_installs_null_root (s : State AttrValue) :
  Raw (RemoveResource s) = NewValue (Schema_TerraformType (Schema s)) PNil /\
  Value_Type (Raw (RemoveResource s)) = Schema_TerraformType (Schema s) /\
  IsNull (Raw (RemoveResource s)) = true /\
  Schema (RemoveResource s) = Schema s /\
  RemoveResource (RemoveResource s) = RemoveResource s /\
  forall path attrType,
    AttributeTypeAtPath (Schema s) path = Ok attrType ->
    HasError (snd (getValue (RemoveResource s) path)) = false.
Proof.
  repeat split. intros path attrType Hty.
  now rewrite (getAttributeValue_null (RemoveResource s) path attrType Hty eq_refl).
Qed.

(** C7: [Set] with a non-nil value either leaves the facade untouched (an
    Error diagnostic from [FromValue], or a failed conversion to wire form,
    which adds one Error diagnostic) or installs the whole new tree. *)
Theorem Set_is_atomic (s : State AttrValue) (val : Dynamic Host)
  newStateAttrValue diags :
  FromValue (AttributeType (Schema s)) (Some val) NewAttributePath
    = (newStateAttrValue, diags) ->
  (HasError diags = true -> SetAll s (Some val) = Returns (s, diags)) /\
  (HasError diags = false ->
   forall a, newStateAttrValue = Some a ->
     (forall err, ToTerraformValue a = Err err ->
        exists d, SetAll s (Some val) = Returns (s, diags ++ [d]) /\
                  Severity_ d = SeverityError /\ Summary d = "State Write Error") /\
     (forall newStateVal, ToTerraformValue a = Ok newStateVal ->
        SetAll s (Some val) =
          Returns
            (mkState (NewValue (TerraformType (AttributeType (Schema s))) newStateVal)
                     (Schema s),
             diags))).
Proof.
  intro Hfrom. unfold Set_. rewrite Hfrom. split.
  - intros ->. reflexivity.
  - intros -> a ->. split.
    + intros err ->. eexists. repeat split.
    + intros p ->. reflexivity.
Qed.

(** C9: a typed nil pointer inside a non-nil interface is not the nil
    interface: [Set] hands it to [FromValue], returns what [FromValue]
    reports, and the nil-rejection diagnostic is in the result only if
    [FromValue] itself produced it. *)
Theorem Set_typed_nil_pointer_reaches_FromValue (s : State AttrValue)
  (pointee : string) newStateAttrValue diags :
  let val : Interface Host := Some (NilPointer pointee) in
  FromValue (AttributeType (Schema s)) val NewAttributePath
    = (newStateAttrValue, diags) ->
  val <> None /\
  (HasError diags = true -> SetAll s val = Returns (s, diags)) /\
  (forall s' out, SetAll s val = Returns (s', out) ->
     In nilStateDiagnostic out -> In nilStateDiagnostic diags).
Proof.
  intros val Hfrom. subst val.
  assert (Hwrite : forall detail,
             nilStateDiagnostic <> NewErrorDiagnostic "State Write Error" detail).
  { intros detail H. apply (f_equal Summary) in H. discriminate H. }
  assert (Hout : forall s' out,
             SetAll s (Some (NilPointer pointee)) = Returns (s', out) ->
             In nilStateDiagnostic out -> In nilStateDiagnostic diags).
  { intros s' out. unfold Set_. rewrite Hfrom.
    destruct (HasError diags) eqn:He.
    - intros [= <- <-]. auto.
    - destruct newStateAttrValue as [a|]; [|discriminate].
      destruct (ToTerraformValue a) as [p|err].
      + intros [= <- <-]. auto.
      + intros [= <- <-] Hin. unfold AddError, Append in Hin.
        apply in_app_or in Hin as [Hin|[Hin|[]]]; [exact Hin|].
        symmetry in Hin. now apply Hwrite in Hin. }
  split; [discriminate|]. split.
  - intros He. unfold Set_. now rewrite Hfrom, He.
  - exact Hout.
Qed.

(** C10: when the transform comes back with an error, [SetAttribute] has
    already stored the tree that came with it, whatever that tree is, and
    then reports the error at the path. *)
Theorem SetAttribute_stores_tree_of_failed_transform
  (s : State AttrValue) (path : AttributePath) (val : Interface Host)
  attrType newVal newValDiags newTfVal raw err diags :
  AttributeTypeAtPath (Schema s) path = Ok attrType ->
  FromValue attrType val path = (Some newVal, newValDiags) ->
  HasError newValDiags = false ->
  ToTerraformValue newVal = Ok newTfVal ->
  Transform Diagnostics (Raw s) (transformFunc path attrType newTfVal) newValDiags
    = ((raw, Some err), diags) ->
  SetAt s path val =
    Returns
      (mkState raw (Schema s),
       diags ++ [NewAttributeErrorDiagnostic path "State Write Error"
                   (writeAttrPreamble ^^ err)]).
Proof.
  intros Hty Hfrom Hok Hwire Htr. unfold SetAttribute.
  rewrite Hty, Hfrom. cbn [Append app]. rewrite Hok, Hwire, Htr. reflexivity.
Qed.

(** C3: with a validating attribute type, [getAttributeValue] runs
    [Validate] on the wire value first.  An Error among its diagnostics ends
    the read with no value, whatever [ValueFromTerraform] would have said;
    without one the value is converted and returned next to the diagnostics
    of [Validate], and [GetAttribute] passes both on. *)
Theorem getAttributeValue_validates_before_conversion
  (s : State AttrValue) (path : AttributePath) attrType validate tfValue :
  AttributeTypeAtPath (Schema s) path = Ok attrType ->
  IsNull (Raw s) = false ->
  terraformValueAtPath Walk s path = Ok tfValue ->
  Validate attrType = Some validate ->
  (HasError (validate tfValue path) = true ->
     getValue s path = (None, validate tfValue path) /\
     forall target, GetAt s path target = (target, validate tfValue path)) /\
  (HasError (validate tfValue path) = false ->
   forall attrValue, ValueFromTerraform attrType tfValue = (Some attrValue, None) ->
     getValue s path = (Some attrValue, validate tfValue path) /\
     forall target,
       GetAt s path target =
         (fst (ValueAs attrValue target),
          validate tfValue path
            ++ map (reattribute path) (snd (ValueAs attrValue target)))).
Proof.
  intros Hty Hnull Hwalk Hval.
  assert (Hget : getValue s path =
            if HasError (validate tfValue path) then (None, validate tfValue path)
            else match ValueFromTerraform attrType tfValue with
                 | (_, Some err) =>
                     (None, AddAttributeError (validate tfValue path) path
                              "State Read Error" (readPreamble ^^ err))
                 | (attrValue, None) => (attrValue, validate tfValue path)
                 end).
  { unfold getAttributeValue. rewrite Hty, Hnull, Hwalk, Hval. reflexivity. }
  split.
  - intro He. rewrite He in Hget. split; [exact Hget|].
    intro target. unfold GetAttribute. now rewrite Hget, He.
  - intros He attrValue Hconv. rewrite He, Hconv in Hget. split; [exact Hget|].
    intro target. unfold GetAttribute. rewrite Hget, He.
    now destruct (ValueAs attrValue target).
Qed.

(** C6: every diagnostic of the conversion step comes out of
    [GetAttribute] as an attribute diagnostic at the requested path with
    its severity, summary and detail; a conversion that answers with one
    Error diagnostic and leaves the target alone gives one Error diagnostic
    at the path and the target as it was. *)
Theorem GetAttribute_attributes_conversion_diagnostics
  (s : State AttrValue) (path : AttributePath) (target : Target) attrValue diags :
  getValue s path = (Some attrValue, diags) ->
  HasError diags = false ->
  let converted := ValueAs attrValue target in
  GetAt s path target =
    (fst converted, diags ++ map (reattribute path) (snd converted)) /\
  (forall d, In d (snd converted) ->
     In (mkDiagnostic (Severity_ d) (Summary d) (Detail d) (Some path))
        (snd (GetAt s path target))) /\
  (forall d, converted = (target, [d]) -> Severity_ d = SeverityError ->
     GetAt s path target =
       (target, diags ++ [NewAttributeErrorDiagnostic path (Summary d) (Detail d)])).
Proof.
  intros Hget Hok converted.
  assert (HG : GetAt s path target =
            (fst converted, diags ++ map (reattribute path) (snd converted))).
  { unfold GetAttribute. rewrite Hget, Hok. subst converted.
    now destruct (ValueAs attrValue target). }
  split; [exact HG|]. split.
  - intros d Hin. rewrite HG. cbn [snd]. apply in_or_app. right.
    rewrite <- reattribute_eq. now apply in_map.
  - intros d Hconv Hsev. rewrite HG, Hconv. cbn [fst snd map].
    rewrite reattribute_eq, Hsev. reflexivity.
Qed.

End FacadeProperties.

(** ** The facade over the value tree of [tftypes] *)

Section TreeProperties.

Import tftypes diag diagFacts pathFacts treeFacts.

Context {AttrValue Host Target : Type}.
Variable ToTerraformValue : AttrValue -> result (Payload Value).
Variable FromValue :
  AttrType AttrValue -> Interface Host -> AttributePath -> option AttrValue * Diagnostics.
Variable ValueAs : AttrValue -> Target -> Target * Diagnostics.

Local Abbreviation getValue := (getAttributeValue WalkAttributePath).
Local Abbreviation GetAt := (GetAttribute ValueAs WalkAttributePath).
Local Abbreviation SetAt :=
  (SetAttribute ToTerraformValue FromValue (@tftypes.Transform)).

Lemma ApplyStep_not_null (v c : Value) (s : AttributePathStep) :
  ApplyStep v s = Ok c -> IsNull v = false.
Proof.
  destruct v as [ty []]; try reflexivity.
  destruct s, ty; discriminate.
Qed.

Lemma arrives_not_null (v node : Value) (path : AttributePath) :
  arrives v path node -> path <> [] -> IsNull v = false.
Proof.
  unfold arrives. destruct path as [|s rest]; [congruence|]. intros H _.
  cbn in H. destruct (ApplyStep v s) as [c|e] eqn:E; [|discriminate H].
  now apply ApplyStep_not_null in E.
Qed.

(** A read looks at the tree only through the null test of the root and
    the walk along its path. *)
Lemma getAttributeValue_same_view (s s' : State AttrValue) (q : AttributePath) :
  Schema s' = Schema s ->
  IsNull (Raw s') = IsNull (Raw s) ->
  WalkAttributePath (Raw s') q = WalkAttributePath (Raw s) q ->
  getValue s' q = getValue s q /\
  forall target, GetAt s' q target = GetAt s q target.
Proof.
  intros Hs Hn Hw.
  assert (H : getValue s' q = getValue s q).
  { unfold getAttributeValue, terraformValueAtPath. now rewrite Hs, Hn, Hw. }
  split; [exact H|]. intro target. unfold GetAttribute. now rewrite H.
Qed.

(** Away from the path being set, the callback of [SetAttribute] hands
    back the node it was given and leaves the diagnostics alone. *)
Lemma transformFunc_miss path (attrType : AttrType AttrValue) newTfVal q v diags :
  q <> path -> transformFunc path attrType newTfVal q v diags = ((v, None), diags).
Proof.
  intro H. unfold transformFunc. now rewrite (AttributePath_Equal_neq _ _ H).
Qed.

(** [SetAttribute] from the point where the value has its wire form. *)
Lemma SetAttribute_at_transform
  (s : State AttrValue) (path : AttributePath) (val : Interface Host)
  attrType newVal newValDiags newTfVal :
  AttributeTypeAtPath (Schema s) path = Ok attrType ->
  FromValue attrType val path = (Some newVal, newValDiags) ->
  HasError newValDiags = false ->
  ToTerraformValue newVal = Ok newTfVal ->
  SetAt s path val =
    match Transform (Raw s) (transformFunc path attrType newTfVal) newValDiags with
    | ((raw, Some err), diags) =>
        Returns
          (setRaw s raw,
           AddAttributeError diags path "State Write Error" (writeAttrPreamble ^^ err))
    | ((raw, None), diags) => Returns (setRaw s raw, diags)
    end.
Proof.
  intros Hty Hfrom Hok Hwire. unfold SetAttribute.
  rewrite Hty, Hfrom. cbn [Append app]. rewrite Hok, Hwire.
  now destruct (Transform (Raw s) (transformFunc path attrType newTfVal) newValDiags)
    as [[raw [e|]] diags].
Qed.

(** The callback at the path being set, called with diagnostics that hold
    no Error: it appends what [Validate] says of the new wire value, and
    hands back the node it was given if that holds an Error, the new wire
    value if not. *)
Lemma transformFunc_at_path path (attrType : AttrType AttrValue) newTfVal v diags :
  HasError diags = false ->
  let tfVal := NewValue (TerraformType attrType) newTfVal in
  let validated :=
    match Validate attrType with
    | Some validate => validate tfVal path
    | None => []
    end in
  transformFunc path attrType newTfVal path v diags
    = ((if HasError validated then v else tfVal, None), diags ++ validated).
Proof.
  intros Hd tfVal validated. unfold transformFunc.
  rewrite AttributePath_Equal_refl. fold tfVal. subst validated.
  destruct (Validate attrType) as [validate|].
  - rewrite HasError_Append, Hd. cbn [orb]. unfold Append.
    now destruct (HasError (validate tfVal path)).
  - cbn [HasError existsb]. now rewrite app_nil_r.
Qed.

(** The callback of [SetAttribute] never fails. *)
Lemma transformFunc_never_fails path (attrType : AttrType AttrValue) newTfVal q v diags :
  snd (fst (transformFunc path attrType newTfVal q v diags)) = None.
Proof.
  unfold transformFunc. destruct (AttributePath_Equal q path); [|reflexivity].
  destruct (Validate attrType) as [validate|]; [|reflexivity].
  now destruct (HasError _).
Qed.

(** What the callback of [SetAttribute] leaves in the diagnostics: what
    was there, and behind it nothing but what [Validate] says of the new
    wire value. *)
Lemma transformFunc_appends path (attrType : AttrType AttrValue) newTfVal q v diags :
  let validated :=
    match Validate attrType with
    | Some validate => validate (NewValue (TerraformType attrType) newTfVal) path
    | None => []
    end in
  snd (transformFunc path attrType newTfVal q v diags) = diags \/
  snd (transformFunc path attrType newTfVal q v diags) = diags ++ validated.
Proof.
  unfold transformFunc. destruct (AttributePath_Equal q path); [|now left].
  destruct (Validate attrType) as [validate|]; [|now left].
  right. now destruct (HasError _).
Qed.

(** The transform of [SetAttribute] over a tree with unique keys, case by
    case: the path leads to no node and nothing happens; or it leads to a
    node, where [Validate] is run once, and then the tree is kept because
    [Validate] reported an Error, or the transform fails because the new
    wire value has another type than the node, or the new wire value
    takes the node's place. *)
Lemma Transform_of_SetAttribute path (attrType : AttrType AttrValue) newTfVal
  (tree : Value) (diags : Diagnostics) :
  HasError diags = false ->
  uniqueKeys tree ->
  let tfVal := NewValue (TerraformType attrType) newTfVal in
  let validated :=
    match Validate attrType with
    | Some validate => validate tfVal path
    | None => []
    end in
  let run := Transform tree (transformFunc path attrType newTfVal) diags in
  ((forall node, ~ arrives tree path node) /\ run = ((tree, None), diags)) \/
  (exists old,
     arrives tree path old /\
     ((HasError validated = true /\ run = ((tree, None), diags ++ validated)) \/
      (HasError validated = false /\
       Type_Equal (Value_Type tfVal) (Value_Type old) = false /\
       exists e, run = ((tree, Some e), diags ++ validated)) \/
      (HasError validated = false /\
       Value_Type tfVal = Value_Type old /\
       exists raw,
         run = ((raw, None), diags ++ validated) /\
         replacedAt tfVal path tree raw /\
         (uniqueKeys tfVal -> uniqueKeys raw)))).
Proof.
  intros Hd Huniq.
  pose proof (fun old => transformFunc_at_path path attrType newTfVal old diags Hd)
    as Hhit.
  cbv zeta in *. unfold Transform.
  set (tfVal := NewValue (TerraformType attrType) newTfVal) in *.
  set (validated := match Validate attrType with
                    | Some validate => validate tfVal path
                    | None => []
                    end) in *.
  set (cb := transformFunc path attrType newTfVal) in *.
  assert (Hmiss : forall q v st, q <> path -> cb q v st = ((v, None), st))
    by (intros q v st; apply transformFunc_miss).
  destruct (WalkAttributePath_outcome path tree)
    as [[old Hold]|(done & remaining & e & _ & _ & Hwalk)].
  - right. exists old. split; [exact Hold|]. specialize (Hhit old).
    destruct (HasError validated) eqn:He.
    + left. split; [reflexivity|].
      destruct (transform_on_route cb path old old diags (diags ++ validated)
                  Hmiss Hhit eq_refl tree path NewAttributePath eq_refl Huniq Hold)
        as (raw & Htr & _ & _).
      destruct (transform_identity cb tree) with (pre := NewAttributePath) (st := diags)
        as [st' Hsame].
      { intros q v st. subst cb. unfold transformFunc.
        destruct (AttributePath_Equal q path); [|now exists st].
        subst validated. destruct (Validate attrType) as [validate|];
          [|discriminate He].
        fold tfVal. rewrite HasError_Append, He, orb_true_r. now eexists. }
      rewrite Htr in Hsame. injection Hsame as -> _. exact Htr.
    + right. destruct (Type_Equal (Value_Type tfVal) (Value_Type old)) eqn:Hsame.
      * right. split; [reflexivity|]. apply Type_Equal_eq in Hsame.
        split; [exact Hsame|].
        destruct (transform_on_route cb path old tfVal diags (diags ++ validated)
                    Hmiss Hhit Hsame tree path NewAttributePath eq_refl Huniq Hold)
          as (raw & Htr & Hrep & Hkeep).
        now exists raw.
      * left. split; [reflexivity|]. split; [reflexivity|].
        exact (transform_on_route_refused cb path old tfVal diags
                 (diags ++ validated) Hmiss Hhit Hsame tree path NewAttributePath
                 eq_refl Huniq Hold).
  - left. split.
    + intros node H. unfold arrives in H. rewrite Hwalk in H. discriminate H.
    + apply (transform_unreached cb path Hmiss tree path NewAttributePath);
        [reflexivity|assumption|].
      intros node H. unfold arrives in H. rewrite Hwalk in H. discriminate H.
Qed.

(** C4: [SetAttribute] at a path that leads to a node runs the transform
    over [Raw], and in it [Validate] on the wire value newly made for the
    path, once, before anything is put into the tree: the diagnostics of
    [Validate] come back behind those of [FromValue]; when they hold an
    Error the facade, and with it the node at the path, is as it was, and
    when they hold none (and the new value has the type of the node) the
    new wire value is the node at the path. *)
Theorem SetAttribute_validates_before_commit
  (s : State AttrValue) (path : AttributePath) (val : Interface Host)
  attrType newVal newValDiags newTfVal validate (old : Value) :
  AttributeTypeAtPath (Schema s) path = Ok attrType ->
  FromValue attrType val path = (Some newVal, newValDiags) ->
  HasError newValDiags = false ->
  ToTerraformValue newVal = Ok newTfVal ->
  Validate attrType = Some validate ->
  uniqueKeys (Raw s) ->
  arrives (Raw s) path old ->
  let tfVal := NewValue (TerraformType attrType) newTfVal in
  (HasError (validate tfVal path) = true ->
     SetAt s path val = Returns (s, newValDiags ++ validate tfVal path) /\
     Transform (Raw s) (transformFunc path attrType newTfVal) newValDiags
       = ((Raw s, None), newValDiags ++ validate tfVal path)) /\
  (HasError (validate tfVal path) = false ->
   Value_Type tfVal = Value_Type old ->
     exists raw,
       SetAt s path val
         = Returns (mkState raw (Schema s), newValDiags ++ validate tfVal path) /\
       arrives raw path tfVal /\
       Transform (Raw s) (transformFunc path attrType newTfVal) newValDiags
         = ((raw, None), newValDiags ++ validate tfVal path)).
Proof.
  intros Hty Hfrom Hok Hwire Hval Huniq Hold tfVal.
  pose proof (transformFunc_at_path path attrType newTfVal old newValDiags Hok)
    as Hhit.
  cbn zeta in Hhit. rewrite Hval in Hhit. fold tfVal in Hhit.
  rewrite (SetAttribute_at_transform s path val attrType newVal newValDiags
             newTfVal) by assumption.
  unfold Transform. split.
  - intro He. rewrite He in Hhit.
    destruct (transform_on_route (transformFunc path attrType newTfVal) path
                old old newValDiags (newValDiags ++ validate tfVal path)
                (transformFunc_miss path attrType newTfVal) Hhit eq_refl
                (Raw s) path NewAttributePath eq_refl Huniq Hold)
      as (raw & Htr & _ & _).
    destruct (transform_identity (transformFunc path attrType newTfVal) (Raw s))
      with (pre := NewAttributePath) (st := newValDiags) as [st' Hsame].
    { intros q v st. unfold transformFunc.
      destruct (AttributePath_Equal q path); [|now exists st].
      rewrite Hval. fold tfVal. rewrite HasError_Append, He, orb_true_r.
      now eexists. }
    rewrite Htr in Hsame. injection Hsame as -> _.
    rewrite Htr. split; [now rewrite setRaw_Raw|reflexivity].
  - intros He Hsame. rewrite He in Hhit.
    destruct (transform_on_route (transformFunc path attrType newTfVal) path
                old tfVal newValDiags (newValDiags ++ validate tfVal path)
                (transformFunc_miss path attrType newTfVal) Hhit Hsame
                (Raw s) path NewAttributePath eq_refl Huniq Hold)
      as (raw & Htr & [Hthere _] & _).
    exists raw. rewrite Htr. split; [reflexivity|]. split; [|reflexivity].
    apply Hthere. now exists old.
Qed.

(** C5: the write that is lost.  On an entirely null tree [SetAttribute] at
    an attribute path of the schema, with a value the schema accepts,
    returns the diagnostics of [FromValue] and no Error, and leaves the
    tree null; the read that follows finds no value: [getAttributeValue]
    returns nothing and [GetAttribute] an Error at the path. *)
Theorem SetAttribute_on_null_tree_drops_the_write
  (s : State AttrValue) (path : AttributePath) (val : Interface Host)
  attrType newVal newValDiags newTfVal :
  AttributeTypeAtPath (Schema s) path = Ok attrType ->
  FromValue attrType val path = (Some newVal, newValDiags) ->
  HasError newValDiags = false ->
  ToTerraformValue newVal = Ok newTfVal ->
  IsNull (Raw s) = true ->
  path <> [] ->
  SetAt s path val = Returns (s, newValDiags) /\
  getValue s path = (None, []) /\
  forall target,
    GetAt s path target =
      (target,
       [NewAttributeErrorDiagnostic path "State Read Error"
          (readPreamble ^^ missingValueDetail)]).
Proof.
  intros Hty Hfrom Hok Hwire Hnull Hpath.
  assert (Hget : getValue s path = (None, [])).
  { now apply getAttributeValue_null with attrType. }
  split; [|split; [exact Hget|]].
  - rewrite (SetAttribute_at_transform s path val attrType newVal newValDiags
               newTfVal) by assumption.
    unfold Transform. rewrite transform_childless.
    + rewrite transformFunc_miss by (intros H; now apply Hpath).
      rewrite keepsType_same by reflexivity. now rewrite setRaw_Raw.
    + destruct (Raw s) as [ty []]; try discriminate Hnull. exact I.
  - intro target. unfold GetAttribute. now rewrite Hget.
Qed.

(** *** More on [SetAttribute] over the tree *)

Local Abbreviation fits := (accepts ToTerraformValue FromValue).

(** The type of an accepted wire value is the one the schema gives for the
    path. *)
Lemma fits_type (schema : Schema_ AttrValue) path val tfVal :
  fits schema path val tfVal ->
  exists attrType,
    AttributeTypeAtPath schema path = Ok attrType /\
    Value_Type tfVal = TerraformType attrType.
Proof.
  intros (attrType & newVal & newValDiags & newTfVal & Hty & _ & _ & _ & -> & _).
  now exists attrType.
Qed.

(** An accepted value of the node's type replaces the node at its path,
    and nothing else. *)
Lemma SetAttribute_replaces
  (s : State AttrValue) (path : AttributePath) (val : Interface Host)
  (tfVal old : Value) :
  fits (Schema s) path val tfVal ->
  uniqueKeys (Raw s) ->
  arrives (Raw s) path old ->
  Value_Type tfVal = Value_Type old ->
  exists raw diags,
    SetAt s path val = Returns (mkState raw (Schema s), diags) /\
    HasError diags = false /\
    replacedAt tfVal path (Raw s) raw /\
    (uniqueKeys tfVal -> uniqueKeys raw).
Proof.
  intros (attrType & newVal & newValDiags & newTfVal
          & Hty & Hfrom & Hok & Hwire & -> & Hval) Huniq Hold Hsame.
  pose proof (transformFunc_at_path path attrType newTfVal old newValDiags Hok)
    as Hhit.
  cbv zeta in Hhit. rewrite Hval in Hhit.
  destruct (transform_on_route (transformFunc path attrType newTfVal) path
              old (NewValue (TerraformType attrType) newTfVal) newValDiags _
              (transformFunc_miss path attrType newTfVal) Hhit Hsame
              (Raw s) path NewAttributePath eq_refl Huniq Hold)
    as (raw & Htr & Hrep & Hkeep).
  exists raw. eexists. split; [|split; [|split; [exact Hrep|exact Hkeep]]].
  - rewrite (SetAttribute_at_transform s path val attrType newVal newValDiags newTfVal)
      by assumption.
    unfold Transform. now rewrite Htr.
  - now rewrite HasError_app, Hok, Hval.
Qed.

(** X10: over the transform of [tftypes], a [SetAttribute] that returns an
    Error diagnostic has left the facade exactly as it was: whether the
    schema, the conversion or [Validate] refused the value, or the
    transform failed. *)
Theorem SetAttribute_error_means_untouched
  (s s' : State AttrValue) (path : AttributePath) (val : Interface Host)
  (out : Diagnostics) :
  SetAt s path val = Returns (s', out) -> HasError out = true -> s' = s.
Proof.
  unfold SetAttribute.
  destruct (AttributeTypeAtPath (Schema s) path) as [attrType|e] eqn:Hty;
    [|now intros [= <- _]].
  destruct (FromValue attrType val path) as [o newValDiags] eqn:Hfrom.
  cbn [Append app].
  destruct (HasError newValDiags) eqn:Hok; [now intros [= <- _]|].
  destruct o as [newVal|]; [|discriminate].
  destruct (ToTerraformValue newVal) as [newTfVal|e] eqn:Hwire;
    [|now intros [= <- _]].
  set (cb := transformFunc path attrType newTfVal).
  destruct (Transform (Raw s) cb newValDiags) as [[raw [e|]] diags] eqn:Htr.
  - (* the transform failed: it gave back the tree it was given *)
    apply transform_failure_returns_input in Htr;
      [|intros q v st; apply transformFunc_never_fails].
    subst raw. rewrite setRaw_Raw. now intros [= <- _].
  - intros [= <- <-] He.
    set (tfVal := NewValue (TerraformType attrType) newTfVal).
    destruct (HasError match Validate attrType with
                       | Some validate => validate tfVal path
                       | None => []
                       end) eqn:Hval.
    + (* [Validate] refused: the callback hands every node back *)
      destruct (Validate attrType) as [validate|] eqn:Hv; [|discriminate Hval].
      destruct (transform_identity cb (Raw s))
        with (pre := NewAttributePath) (st := newValDiags) as [st' Hsame].
      { intros q v st. subst cb. unfold transformFunc.
        destruct (AttributePath_Equal q path); [|now exists st].
        rewrite Hv. fold tfVal. rewrite HasError_Append, Hval, orb_true_r.
        now eexists. }
      unfold Transform in Htr. rewrite Htr in Hsame. injection Hsame as -> _.
      now rewrite setRaw_Raw.
    + (* no Error from [Validate]: none in the diagnostics *)
      pose proof (transform_invariant (fun d => HasError d = false) cb) as Hinv.
      specialize (Hinv
        (fun q v st Hst =>
           match transformFunc_appends path attrType newTfVal q v st with
           | or_introl E => eq_trans (f_equal HasError E) Hst
           | or_intror E =>
               eq_trans (f_equal HasError E)
                 (eq_trans (HasError_app _ _)
                    (f_equal2 orb Hst Hval))
           end)
        (Raw s) NewAttributePath newValDiags Hok).
      unfold Transform in Htr. rewrite Htr in Hinv. cbn [snd] in Hinv. congruence.
Qed.

(** X11: over the transform of [tftypes], [SetAttribute] at a path of the
    schema that leads to no node of the tree (keys being unique) is a
    silent no-op: the facade stays as it was and only the diagnostics of
    [FromValue] come back; [Validate] is not run. *)
Theorem SetAttribute_unreached_path_is_noop
  (s : State AttrValue) (path : AttributePath) (val : Interface Host)
  attrType newVal newValDiags newTfVal :
  AttributeTypeAtPath (Schema s) path = Ok attrType ->
  FromValue attrType val path = (Some newVal, newValDiags) ->
  HasError newValDiags = false ->
  ToTerraformValue newVal = Ok newTfVal ->
  uniqueKeys (Raw s) ->
  (forall node, ~ arrives (Raw s) path node) ->
  SetAt s path val = Returns (s, newValDiags).
Proof.
  intros Hty Hfrom Hok Hwire Huniq Hno.
  rewrite (SetAttribute_at_transform s path val attrType newVal newValDiags newTfVal)
    by assumption.
  unfold Transform.
  rewrite (transform_unreached (transformFunc path attrType newTfVal) path
             (transformFunc_miss path attrType newTfVal) (Raw s) path NewAttributePath)
    by (try assumption; reflexivity).
  now rewrite setRaw_Raw.
Qed.

(** X12: over the transform of [tftypes], once the value has a wire form
    [SetAttribute] returns the diagnostics of [FromValue], in order and in
    front, then diagnostics that [Validate] reported for the new wire
    value, and behind them either nothing or, when the transform failed,
    one "State Write Error" at the path, the facade being as it was. *)
Theorem SetAttribute_diagnostics_origin
  (s : State AttrValue) (path : AttributePath) (val : Interface Host)
  attrType newVal newValDiags newTfVal :
  AttributeTypeAtPath (Schema s) path = Ok attrType ->
  FromValue attrType val path = (Some newVal, newValDiags) ->
  HasError newValDiags = false ->
  ToTerraformValue newVal = Ok newTfVal ->
  let validated :=
    match Validate attrType with
    | Some validate => validate (NewValue (TerraformType attrType) newTfVal) path
    | None => []
    end in
  exists s' more tail,
    SetAt s path val = Returns (s', newValDiags ++ more ++ tail) /\
    Forall (fun d => In d validated) more /\
    (tail = [] \/
     s' = s /\
     exists err,
       tail = [NewAttributeErrorDiagnostic path "State Write Error"
                 (writeAttrPreamble ^^ err)]).
Proof.
  intros Hty Hfrom Hok Hwire validated.
  rewrite (SetAttribute_at_transform s path val attrType newVal newValDiags newTfVal)
    by assumption.
  set (cb := transformFunc path attrType newTfVal).
  assert (Hinv : exists more,
             snd (Transform (Raw s) cb newValDiags) = newValDiags ++ more /\
             Forall (fun d => In d validated) more).
  { apply (transform_invariant
             (fun st => exists more,
                  st = newValDiags ++ more /\
                  Forall (fun d => In d validated) more) cb).
    - intros q v st (more & -> & Hmore).
      destruct (transformFunc_appends path attrType newTfVal q v
                  (newValDiags ++ more)) as [E|E].
      + exists more. split; [exact E|exact Hmore].
      + exists (more ++ validated). split.
        * etransitivity; [exact E|]. symmetry. apply app_assoc.
        * apply Forall_app. split; [exact Hmore|]. now apply Forall_forall.
    - exists []. split; [now rewrite app_nil_r|constructor]. }
  destruct (Transform (Raw s) cb newValDiags) as [[raw [e|]] diags] eqn:Htr;
    cbn [snd] in Hinv; destruct Hinv as (more & -> & Hmore).
  - apply transform_failure_returns_input in Htr;
      [|intros q v st; apply transformFunc_never_fails].
    subst raw. rewrite setRaw_Raw.
    exists s, more, [NewAttributeErrorDiagnostic path "State Write Error"
                       (writeAttrPreamble ^^ e)].
    split; [|split; [exact Hmore|]].
    + unfold AddAttributeError, Append. now rewrite <- app_assoc.
    + right. split; [reflexivity|]. now exists e.
  - exists (setRaw s raw), more, []. rewrite app_nil_r.
    split; [reflexivity|]. split; [exact Hmore|now left].
Qed.

(** X13: over the transform of [tftypes], two accepted writes at one path
    that leads to a node of the type the schema gives for the path: the
    second value is the one at the path afterwards, and reads beside the
    path are as before the first write. *)
Theorem SetAttribute_last_write_wins
  (s : State AttrValue) (path : AttributePath) (val1 val2 : Interface Host)
  (tfVal1 tfVal2 old : Value) :
  fits (Schema s) path val1 tfVal1 ->
  fits (Schema s) path val2 tfVal2 ->
  uniqueKeys (Raw s) ->
  uniqueKeys tfVal1 ->
  arrives (Raw s) path old ->
  Value_Type tfVal1 = Value_Type old ->
  exists s1 out1 s2 out2,
    SetAt s path val1 = Returns (s1, out1) /\
    SetAt s1 path val2 = Returns (s2, out2) /\
    arrives (Raw s2) path tfVal2 /\
    (forall q, ~ isPrefix q path -> ~ isPrefix path q ->
       WalkAttributePath (Raw s2) q = WalkAttributePath (Raw s) q).
Proof.
  intros H1 H2 Huniq Huniq1 Hold Hsame.
  destruct (SetAttribute_replaces s path val1 tfVal1 old H1 Huniq Hold Hsame)
    as (raw1 & out1 & Hset1 & _ & [Hthere1 Hrest1] & Hkeep1).
  assert (Harr1 : arrives raw1 path tfVal1) by (apply Hthere1; now exists old).
  assert (Hsame2 : Value_Type tfVal2 = Value_Type tfVal1).
  { destruct (fits_type _ _ _ _ H1) as (t1 & Ht1 & ->).
    destruct (fits_type _ _ _ _ H2) as (t2 & Ht2 & ->). congruence. }
  destruct (SetAttribute_replaces (mkState raw1 (Schema s)) path val2 tfVal2 tfVal1
              H2 (Hkeep1 Huniq1) Harr1 Hsame2)
    as (raw2 & out2 & Hset2 & _ & [Hthere2 Hrest2] & _).
  cbn [Raw Schema] in *.
  exists (mkState raw1 (Schema s)), out1, (mkState raw2 (Schema s)), out2.
  split; [exact Hset1|]. split; [exact Hset2|]. cbn [Raw]. split.
  - apply Hthere2. now exists tfVal1.
  - intros q Hq1 Hq2. now rewrite Hrest2, Hrest1.
Qed.

(** X14: over the transform of [tftypes], accepted writes at two paths
    that lie beside each other and lead to nodes of the types the schema
    gives for them do not disturb each other: afterwards each path holds
    the value written to it. *)
Theorem SetAttribute_writes_beside_each_other
  (s : State AttrValue) (p q : AttributePath) (val1 val2 : Interface Host)
  (tfVal1 tfVal2 oldp oldq : Value) :
  fits (Schema s) p val1 tfVal1 ->
  fits (Schema s) q val2 tfVal2 ->
  uniqueKeys (Raw s) ->
  uniqueKeys tfVal1 ->
  arrives (Raw s) p oldp ->
  arrives (Raw s) q oldq ->
  Value_Type tfVal1 = Value_Type oldp ->
  Value_Type tfVal2 = Value_Type oldq ->
  ~ isPrefix p q -> ~ isPrefix q p ->
  exists s1 out1 s2 out2,
    SetAt s p val1 = Returns (s1, out1) /\
    SetAt s1 q val2 = Returns (s2, out2) /\
    arrives (Raw s2) p tfVal1 /\
    arrives (Raw s2) q tfVal2.
Proof.
  intros H1 H2 Huniq Huniq1 Hp Hq Hsame1 Hsame2 Hpq Hqp.
  destruct (SetAttribute_replaces s p val1 tfVal1 oldp H1 Huniq Hp Hsame1)
    as (raw1 & out1 & Hset1 & _ & [Hthere1 Hrest1] & Hkeep1).
  assert (Hq1 : arrives raw1 q oldq).
  { unfold arrives. now rewrite (Hrest1 q Hqp Hpq). }
  destruct (SetAttribute_replaces (mkState raw1 (Schema s)) q val2 tfVal2 oldq
              H2 (Hkeep1 Huniq1) Hq1 Hsame2)
    as (raw2 & out2 & Hset2 & _ & [Hthere2 Hrest2] & _).
  cbn [Raw Schema] in *.
  exists (mkState raw1 (Schema s)), out1, (mkState raw2 (Schema s)), out2.
  split; [exact Hset1|]. split; [exact Hset2|]. cbn [Raw]. split.
  - unfold arrives. rewrite (Hrest2 p Hpq Hqp). apply Hthere1. now exists oldp.
  - apply Hthere2. now exists oldq.
Qed.

(** X16: over the transform of [tftypes], whatever [SetAttribute] at
    [path] returns, the tree (keys being unique) is as it was at every
    path that neither leads to [path] nor goes through it: the walk along
    such a path, [getAttributeValue] and [GetAttribute] give what they
    gave before the write. *)
Theorem SetAttribute_keeps_other_paths
  (s s' : State AttrValue) (path : AttributePath) (val : Interface Host)
  (out : Diagnostics) :
  uniqueKeys (Raw s) ->
  SetAt s path val = Returns (s', out) ->
  forall q, ~ isPrefix q path -> ~ isPrefix path q ->
    WalkAttributePath (Raw s') q = WalkAttributePath (Raw s) q /\
    getValue s' q = getValue s q /\
    forall target, GetAt s' q target = GetAt s q target.
Proof.
  intros Huniq Hset q Hq1 Hq2.
  assert (Hsame : s' = s ->
            WalkAttributePath (Raw s') q = WalkAttributePath (Raw s) q /\
            getValue s' q = getValue s q /\
            forall target, GetAt s' q target = GetAt s q target)
    by (now intros ->).
  revert Hset. unfold SetAttribute.
  destruct (AttributeTypeAtPath (Schema s) path) as [attrType|e] eqn:Hty;
    [|intros [= <- _]; now apply Hsame].
  destruct (FromValue attrType val path) as [o newValDiags] eqn:Hfrom.
  cbn [Append app].
  destruct (HasError newValDiags) eqn:Hok; [intros [= <- _]; now apply Hsame|].
  destruct o as [newVal|]; [|discriminate].
  destruct (ToTerraformValue newVal) as [newTfVal|e] eqn:Hwire;
    [|intros [= <- _]; now apply Hsame].
  pose proof (Transform_of_SetAttribute path attrType newTfVal (Raw s) newValDiags
                Hok Huniq) as Hrun.
  cbv zeta in Hrun.
  destruct Hrun
    as [[_ ->]
       |(old & Hold & [[_ ->]|[(_ & _ & e & ->)|(_ & _ & raw & -> & Hrep & _)]])];
    try (rewrite setRaw_Raw; intros [= <- _]; now apply Hsame).
  intros [= <- _]. destruct Hrep as [Hthere Hrest].
  assert (Hw : WalkAttributePath raw q = WalkAttributePath (Raw s) q)
    by now apply Hrest.
  assert (Hpath : path <> []).
  { intros ->. apply Hq2. now exists q. }
  split; [exact Hw|].
  apply getAttributeValue_same_view; [reflexivity| |exact Hw].
  cbn [Raw setRaw].
  rewrite (arrives_not_null (Raw s) old path Hold Hpath).
  apply (arrives_not_null raw (NewValue (TerraformType attrType) newTfVal) path);
    [|exact Hpath].
  apply Hthere. now exists old.
Qed.


End TreeProperties.
(** ** The theorems at work on the document of the tests *)

(** After [RemoveResource], reading [name] gives no value and no
    diagnostics from [getAttributeValue] and one Error from
    [GetAttribute]. *)
Lemma RemoveResource_then_GetAttribute_witness :
  AttributeTypeAtPath (Fixture.schemaOf Fixture.StringType) Fixture.namePath
    = Ok (Fixture.attrTypeOf Fixture.StringType) /\
  Fixture.getAttributeValue
    (RemoveResource (Fixture.stateOf Fixture.StringType "namevalue"))
    Fixture.namePath = (None, []) /\
  Fixture.GetAttribute
    (RemoveResource (Fixture.stateOf Fixture.StringType "namevalue"))
    Fixture.namePath (Fixture.AtString "")
  = (Fixture.AtString "",
     [diag.NewAttributeErrorDiagnostic Fixture.namePath "State Read Error"
        (readPreamble ^^ missingValueDetail)]).
Proof.
  split; [reflexivity|].
  exact (RemoveResource_then_GetAttribute Fixture.ValueAs tftypes.WalkAttributePath
           (Fixture.stateOf Fixture.StringType "namevalue") Fixture.namePath
           (Fixture.AtString "") (Fixture.attrTypeOf Fixture.StringType) eq_refl).
Defined.

(** C1 as the specification words it does not hold: [name] is a path of
    the schema, and [GetAttribute] after [RemoveResource] returns an Error
    diagnostic. *)
Lemma GetAttribute_after_RemoveResource_counterexample :
  AttributeTypeAtPath (Fixture.schemaOf Fixture.StringType) Fixture.namePath
    = Ok (Fixture.attrTypeOf Fixture.StringType) /\
  snd (Fixture.GetAttribute
         (RemoveResource (Fixture.stateOf Fixture.StringType "namevalue"))
         Fixture.namePath (Fixture.AtString "")) <> [] /\
  diag.HasError
    (snd (Fixture.GetAttribute
            (RemoveResource (Fixture.stateOf Fixture.StringType "namevalue"))
            Fixture.namePath (Fixture.AtString ""))) = true.
Proof. repeat split. discriminate. Qed.

(** Removing [{name: "namevalue"}]: the root is the null object of the
    schema, and looking up [name] reports nothing. *)
Lemma RemoveResource_installs_null_root_witness :
  Raw (RemoveResource (Fixture.stateOf Fixture.StringType "namevalue"))
    = tftypes.NewValue Fixture.documentType tftypes.PNil /\
  diag.HasError
    (snd (Fixture.getAttributeValue
            (RemoveResource (Fixture.stateOf Fixture.StringType "namevalue"))
            Fixture.namePath)) = false.
Proof.
  pose proof (RemoveResource_installs_null_root tftypes.WalkAttributePath
                (Fixture.stateOf Fixture.StringType "namevalue"))
    as (Hraw & _ & _ & _ & _ & Hread).
  split; [exact Hraw|].
  exact (Hread Fixture.namePath (Fixture.attrTypeOf Fixture.StringType) eq_refl).
Defined.

(** [Validate] with an Error stops the read; with a Warning the value is
    converted and the Warning comes with it. *)
Lemma getAttributeValue_validates_before_conversion_witness :
  (Fixture.getAttributeValue
     (Fixture.stateOf Fixture.StringTypeWithValidateError "namevalue")
     Fixture.namePath
   = (None, [Fixture.TestErrorDiagnostic Fixture.namePath])) /\
  (Fixture.getAttributeValue
     (Fixture.stateOf Fixture.StringTypeWithValidateWarning "namevalue")
     Fixture.namePath
   = (Some (Fixture.testtypes_String false "namevalue"
              Fixture.StringTypeWithValidateWarning),
      [Fixture.TestWarningDiagnostic Fixture.namePath])) /\
  (Fixture.GetAttribute
     (Fixture.stateOf Fixture.StringTypeWithValidateWarning "namevalue")
     Fixture.namePath (Fixture.AtTesttypesString false "" None)
   = (Fixture.AtTesttypesString false "namevalue"
        (Some Fixture.StringTypeWithValidateWarning),
      [Fixture.TestWarningDiagnostic Fixture.namePath])).
Proof.
  split; [|split].
  - exact (proj1
             (proj1
                (getAttributeValue_validates_before_conversion
                   Fixture.ValueAs tftypes.WalkAttributePath
                   (Fixture.stateOf Fixture.StringTypeWithValidateError "namevalue")
                   Fixture.namePath
                   (Fixture.attrTypeOf Fixture.StringTypeWithValidateError)
                   (fun _ path => [Fixture.TestErrorDiagnostic path])
                   (tftypes.NewValue tftypes.String (tftypes.PString "namevalue"))
                   eq_refl eq_refl eq_refl eq_refl)
                eq_refl)).
  - exact (proj1
             (proj2
                (getAttributeValue_validates_before_conversion
                   Fixture.ValueAs tftypes.WalkAttributePath
                   (Fixture.stateOf Fixture.StringTypeWithValidateWarning "namevalue")
                   Fixture.namePath
                   (Fixture.attrTypeOf Fixture.StringTypeWithValidateWarning)
                   (fun _ path => [Fixture.TestWarningDiagnostic path])
                   (tftypes.NewValue tftypes.String (tftypes.PString "namevalue"))
                   eq_refl eq_refl eq_refl eq_refl)
                eq_refl
                (Fixture.testtypes_String false "namevalue"
                   Fixture.StringTypeWithValidateWarning)
                eq_refl)).
  - exact (proj2
             (proj2
                (getAttributeValue_validates_before_conversion
                   Fixture.ValueAs tftypes.WalkAttributePath
                   (Fixture.stateOf Fixture.StringTypeWithValidateWarning "namevalue")
                   Fixture.namePath
                   (Fixture.attrTypeOf Fixture.StringTypeWithValidateWarning)
                   (fun _ path => [Fixture.TestWarningDiagnostic path])
                   (tftypes.NewValue tftypes.String (tftypes.PString "namevalue"))
                   eq_refl eq_refl eq_refl eq_refl)
                eq_refl
                (Fixture.testtypes_String false "namevalue"
                   Fixture.StringTypeWithValidateWarning)
                eq_refl)
             (Fixture.AtTesttypesString false "" None)).
Defined.

Lemma document_uniqueKeys (n : string) : uniqueKeys (Fixture.document n).
Proof.
  apply uniqueKeys_map.
  - repeat constructor. intros [].
  - repeat constructor.
Qed.

(** With a [FromValue] that does not validate, the validation of the
    write is the one of the transform: the Error type keeps
    [{name: "foo"}], the Warning type puts "bar" at [name]. *)
Lemma SetAttribute_validates_before_commit_witness :
  SetAttribute Fixture.ToTerraformValue Fixture.FromValueUnvalidated
    (@tftypes.Transform)
    (Fixture.stateOf Fixture.StringTypeWithValidateError "foo") Fixture.namePath
    (Some (HostValue (Fixture.GoString "bar")))
  = Returns (Fixture.stateOf Fixture.StringTypeWithValidateError "foo",
             [Fixture.TestErrorDiagnostic Fixture.namePath]) /\
  exists raw,
    SetAttribute Fixture.ToTerraformValue Fixture.FromValueUnvalidated
      (@tftypes.Transform)
      (Fixture.stateOf Fixture.StringTypeWithValidateWarning "foo") Fixture.namePath
      (Some (HostValue (Fixture.GoString "bar")))
    = Returns (mkState raw (Fixture.schemaOf Fixture.StringTypeWithValidateWarning),
               [Fixture.TestWarningDiagnostic Fixture.namePath]) /\
    arrives raw Fixture.namePath
      (tftypes.NewValue tftypes.String (tftypes.PString "bar")).
Proof.
  split.
  - exact (proj1
             (proj1
                (SetAttribute_validates_before_commit
                   Fixture.ToTerraformValue Fixture.FromValueUnvalidated
                   (Fixture.stateOf Fixture.StringTypeWithValidateError "foo")
                   Fixture.namePath (Some (HostValue (Fixture.GoString "bar")))
                   (Fixture.attrTypeOf Fixture.StringTypeWithValidateError)
                   (Fixture.testtypes_String false "bar"
                      Fixture.StringTypeWithValidateError)
                   [] (tftypes.PString "bar")
                   (fun _ path => [Fixture.TestErrorDiagnostic path])
                   (tftypes.NewValue tftypes.String (tftypes.PString "foo"))
                   eq_refl eq_refl eq_refl eq_refl eq_refl
                   (document_uniqueKeys "foo") eq_refl)
                eq_refl)).
  - destruct (proj2
                (SetAttribute_validates_before_commit
                   Fixture.ToTerraformValue Fixture.FromValueUnvalidated
                   (Fixture.stateOf Fixture.StringTypeWithValidateWarning "foo")
                   Fixture.namePath (Some (HostValue (Fixture.GoString "bar")))
                   (Fixture.attrTypeOf Fixture.StringTypeWithValidateWarning)
                   (Fixture.testtypes_String false "bar"
                      Fixture.StringTypeWithValidateWarning)
                   [] (tftypes.PString "bar")
                   (fun _ path => [Fixture.TestWarningDiagnostic path])
                   (tftypes.NewValue tftypes.String (tftypes.PString "foo"))
                   eq_refl eq_refl eq_refl eq_refl eq_refl
                   (document_uniqueKeys "foo") eq_refl)
                eq_refl eq_refl)
      as (raw & Hset & Harr & _).
    exists raw. split; [exact Hset|exact Harr].
Defined.

(** The schema has the string attribute [name] and the tree is null:
    writing "bar" there reports nothing and changes nothing, and the read
    that follows returns an Error and no value. *)
Lemma SetAttribute_on_null_tree_drops_the_write_witness :
  Fixture.SetAttribute (RemoveResource (Fixture.stateOf Fixture.StringType "foo"))
    Fixture.namePath (Some (HostValue (Fixture.GoString "bar")))
  = Returns (RemoveResource (Fixture.stateOf Fixture.StringType "foo"), []) /\
  Fixture.getAttributeValue (RemoveResource (Fixture.stateOf Fixture.StringType "foo"))
    Fixture.namePath
  = (None, []) /\
  Fixture.GetAttribute (RemoveResource (Fixture.stateOf Fixture.StringType "foo"))
    Fixture.namePath (Fixture.AtString "")
  = (Fixture.AtString "",
     [diag.NewAttributeErrorDiagnostic Fixture.namePath "State Read Error"
        (readPreamble ^^ missingValueDetail)]).
Proof.
  refine (match SetAttribute_on_null_tree_drops_the_write
                  Fixture.ToTerraformValue Fixture.FromValue Fixture.ValueAs
                  (RemoveResource (Fixture.stateOf Fixture.StringType "foo"))
                  Fixture.namePath (Some (HostValue (Fixture.GoString "bar")))
                  (Fixture.attrTypeOf Fixture.StringType)
                  (Fixture.types_String false "bar") [] (tftypes.PString "bar")
                  eq_refl eq_refl eq_refl eq_refl eq_refl _
          with
          | conj Hset (conj Hget Hread) =>
              conj Hset (conj Hget (Hread (Fixture.AtString "")))
          end).
  discriminate.
Defined.

(** Reading the string [name] into a [bool]. *)
Lemma GetAttribute_attributes_conversion_diagnostics_witness :
  Fixture.getAttributeValue (Fixture.stateOf Fixture.StringType "namevalue")
    Fixture.namePath
  = (Some (Fixture.types_String false "namevalue"), []) /\
  Fixture.GetAttribute (Fixture.stateOf Fixture.StringType "namevalue")
    Fixture.namePath (Fixture.AtBool false)
  = (Fixture.AtBool false,
     [diag.NewAttributeErrorDiagnostic Fixture.namePath "Value Conversion Error"
        "cannot populate the target from a value of this type"]).
Proof.
  split; [reflexivity|].
  exact (proj2
           (proj2
              (GetAttribute_attributes_conversion_diagnostics
                 Fixture.ValueAs tftypes.WalkAttributePath
                 (Fixture.stateOf Fixture.StringType "namevalue") Fixture.namePath
                 (Fixture.AtBool false) (Fixture.types_String false "namevalue") []
                 eq_refl eq_refl))
           (Fixture.conversionError
              "cannot populate the target from a value of this type")
           eq_refl eq_refl).
Defined.

(** [Set] with a struct installs the new document; with a bool it reports
    the Error of [FromValue] and keeps the old one. *)
Lemma Set_is_atomic_witness :
  Fixture.Set_ (Fixture.stateOf Fixture.StringType "foo")
    (Some (HostValue (Fixture.GoStruct "bar")))
  = Returns (Fixture.stateOf Fixture.StringType "bar", []) /\
  exists diags,
    diag.HasError diags = true /\
    Fixture.Set_ (Fixture.stateOf Fixture.StringType "foo")
      (Some (HostValue (Fixture.GoBool true)))
    = Returns (Fixture.stateOf Fixture.StringType "foo", diags).
Proof.
  split.
  - exact (proj2
             (proj2
                (Set_is_atomic Fixture.ToTerraformValue Fixture.FromValue
                   (Fixture.stateOf Fixture.StringType "foo")
                   (HostValue (Fixture.GoStruct "bar"))
                   (Some (Fixture.types_Object (Fixture.types_String false "bar")))
                   [] eq_refl)
                eq_refl
                (Fixture.types_Object (Fixture.types_String false "bar")) eq_refl)
             (tftypes.PMap
                [("name", tftypes.NewValue tftypes.String (tftypes.PString "bar"))])
             eq_refl).
  - eexists. split; [|
      exact (proj1
               (Set_is_atomic Fixture.ToTerraformValue Fixture.FromValue
                  (Fixture.stateOf Fixture.StringType "foo")
                  (HostValue (Fixture.GoBool true)) None _ eq_refl)
               eq_refl)].
    reflexivity.
Defined.

(** A nil [*T] inside the interface goes to [FromValue]; [Set] returns its
    diagnostics, and the nil-rejection diagnostic is not among them. *)
Lemma Set_typed_nil_pointer_reaches_FromValue_witness :
  exists diags,
    Fixture.Set_ (Fixture.stateOf Fixture.StringType "foo") (Some (NilPointer "T"))
    = Returns (Fixture.stateOf Fixture.StringType "foo", diags) /\
    ~ In nilStateDiagnostic diags.
Proof.
  pose proof (Set_typed_nil_pointer_reaches_FromValue
                Fixture.ToTerraformValue Fixture.FromValue
                (Fixture.stateOf Fixture.StringType "foo") "T" None _ eq_refl)
    as (_ & Hset & Hin).
  eexists. split; [exact (Hset eq_refl)|].
  intros [H|[]]. discriminate H.
Defined.

(** With a transform that fails after doing its work, [SetAttribute]
    reports the Error and the facade holds the new tree. *)
Lemma SetAttribute_stores_tree_of_failed_transform_witness :
  SetAttribute Fixture.ToTerraformValue Fixture.FromValue Fixture.failingTransform
    (Fixture.stateOf Fixture.StringType "foo") Fixture.namePath
    (Some (HostValue (Fixture.GoString "bar")))
  = Returns
      (Fixture.stateOf Fixture.StringType "bar",
       [diag.NewAttributeErrorDiagnostic Fixture.namePath "State Write Error"
          (writeAttrPreamble ^^ "transform failed")]).
Proof.
  exact (SetAttribute_stores_tree_of_failed_transform
           Fixture.ToTerraformValue Fixture.FromValue Fixture.failingTransform
           (Fixture.stateOf Fixture.StringType "foo") Fixture.namePath
           (Some (HostValue (Fixture.GoString "bar")))
           (Fixture.attrTypeOf Fixture.StringType)
           (Fixture.types_String false "bar") [] (tftypes.PString "bar")
           (Fixture.document "bar") "transform failed" []
           eq_refl eq_refl eq_refl eq_refl eq_refl).
Defined.

(** * Further properties of the facade *)

(** ** Against arbitrary collaborators *)

Section MoreFacadeProperties.

Import tftypes diag diagFacts pathFacts.

Context {AttrValue Host Target : Type}.
Variable ToTerraformValue : AttrValue -> result (Payload Value).
Variable FromValue :
  AttrType AttrValue -> Interface Host -> AttributePath -> option AttrValue * Diagnostics.
Variable ValueAs : AttrValue -> Target -> Target * Diagnostics.
Variable Walk : Value -> AttributePath -> option Value * AttributePath * option error.
Variable Transform :
  forall St : Type, Value -> callback St -> St -> (Value * option error) * St.

Local Abbreviation getValue := (getAttributeValue Walk).
Local Abbreviation GetAt := (GetAttribute ValueAs Walk).
Local Abbreviation SetAll := (Set_ ToTerraformValue FromValue).
Local Abbreviation SetAt := (SetAttribute ToTerraformValue FromValue Transform).

Lemma HasError_AddError diags summary detail :
  HasError (AddError diags summary detail) = true.
Proof.
  unfold AddError. rewrite HasError_Append. cbn. now rewrite orb_true_r.
Qed.

(** X1: [getAttributeValue] never returns a value next to an Error
    diagnostic. *)
Theorem getAttributeValue_value_has_no_error
  (s : State AttrValue) (path : AttributePath) attrValue diags :
  getValue s path = (Some attrValue, diags) -> HasError diags = false.
Proof.
  unfold getAttributeValue.
  destruct (AttributeTypeAtPath (Schema s) path) as [attrType|e]; [|discriminate].
  destruct (IsNull (Raw s)); [discriminate|].
  destruct (terraformValueAtPath Walk s path) as [tfValue|e]; [|discriminate].
  destruct (Validate attrType) as [validate|].
  - cbn [Append app].
    destruct (HasError (validate tfValue path)) eqn:He; [discriminate|].
    destruct (ValueFromTerraform attrType tfValue) as [o [e|]]; [discriminate|].
    now intros [= _ <-].
  - destruct (ValueFromTerraform attrType tfValue) as [o [e|]]; [discriminate|].
    now intros [= _ <-].
Qed.

(** X2: [GetAttribute] either reports an Error and leaves the target as it
    was, or it has a value without Error from [getAttributeValue] and
    returns what [ValueAs] made of it; it never ends quietly without a
    value. *)
Theorem GetAttribute_error_or_converted
  (s : State AttrValue) (path : AttributePath) (target : Target) :
  (HasError (snd (GetAt s path target)) = true /\
   fst (GetAt s path target) = target) \/
  (exists attrValue diags,
     getValue s path = (Some attrValue, diags) /\ HasError diags = false /\
     GetAt s path target =
       (fst (ValueAs attrValue target),
        diags ++ map (reattribute path) (snd (ValueAs attrValue target)))).
Proof.
  unfold GetAttribute. destruct (getValue s path) as [o diags].
  destruct (HasError diags) eqn:He.
  - left. now split.
  - destruct o as [attrValue|].
    + right. exists attrValue, diags. split; [reflexivity|]. split; [exact He|].
      now destruct (ValueAs attrValue target).
    + left. split; [|reflexivity]. cbn [snd]. apply HasError_AddAttributeError.
Qed.

(** X3: [GetAttribute] keeps the diagnostics of [getAttributeValue], in
    order and in front, and every diagnostic it adds carries the requested
    path. *)
Theorem GetAttribute_extends_lookup_diagnostics
  (s : State AttrValue) (path : AttributePath) (target : Target) :
  exists more,
    snd (GetAt s path target) = snd (getValue s path) ++ more /\
    Forall (fun d => Path d = Some path) more.
Proof.
  unfold GetAttribute. destruct (getValue s path) as [o diags]. cbn [snd].
  destruct (HasError diags).
  - exists []. split; [now rewrite app_nil_r | constructor].
  - destruct o as [attrValue|].
    + destruct (ValueAs attrValue target) as [target' valueAsDiags]. cbn [snd].
      exists (map (reattribute path) valueAsDiags). split; [reflexivity|].
      apply Forall_forall. intros d Hd. apply in_map_iff in Hd as (d0 & <- & _).
      now rewrite reattribute_eq.
    + eexists. split; [reflexivity|]. now repeat constructor.
Qed.

(** X4: a diagnostic of [getAttributeValue] is either one that [Validate]
    reported for the node at the path, or an Error at the path with the
    summary "State Read Error". *)
Theorem getAttributeValue_diagnostics_origin
  (s : State AttrValue) (path : AttributePath) (d : Diagnostic) :
  In d (snd (getValue s path)) ->
  (Severity_ d = SeverityError /\ Summary d = "State Read Error" /\
   Path d = Some path) \/
  (exists attrType validate tfValue,
     AttributeTypeAtPath (Schema s) path = Ok attrType /\
     Validate attrType = Some validate /\
     terraformValueAtPath Walk s path = Ok tfValue /\
     In d (validate tfValue path)).
Proof.
  unfold getAttributeValue.
  destruct (AttributeTypeAtPath (Schema s) path) as [attrType|e].
  2:{ cbn. intros [<-|[]]. left. now repeat split. }
  destruct (IsNull (Raw s)); [intros []|].
  destruct (terraformValueAtPath Walk s path) as [tfValue|e].
  2:{ cbn. intros [<-|[]]. left. now repeat split. }
  destruct (Validate attrType) as [validate|] eqn:Hval.
  - cbn [Append app].
    assert (Hfrom : In d (validate tfValue path) ->
              exists attrType0 validate0 tfValue0,
                Ok attrType = Ok attrType0 /\ Validate attrType0 = Some validate0 /\
                Ok tfValue = Ok tfValue0 /\ In d (validate0 tfValue0 path)).
    { intro H. now exists attrType, validate, tfValue. }
    destruct (HasError (validate tfValue path)).
    + cbn [snd]. intro H. right. now apply Hfrom.
    + destruct (ValueFromTerraform attrType tfValue) as [o [e|]]; cbn [snd].
      * unfold AddAttributeError, Append. intro H.
        apply in_app_or in H as [H|[<-|[]]]; [right; now apply Hfrom|].
        left. now repeat split.
      * intro H. right. now apply Hfrom.
  - destruct (ValueFromTerraform attrType tfValue) as [o [e|]]; cbn.
    + intros [<-|[]]. left. now repeat split.
    + intros [].
Qed.

(** X5: a path the schema refuses is answered before the tree, the value
    or the target is looked at: the read and the write each return one
    Error at the path and change nothing, whatever the tree holds. *)
Theorem unknown_path_is_refused_first
  (s : State AttrValue) (path : AttributePath) (e : error) (raw : Value) :
  AttributeTypeAtPath (Schema s) path = Err e ->
  let detail := Errorf_wrap "error getting attribute type in schema" e in
  (forall target,
     GetAt (setRaw s raw) path target =
       (target,
        [NewAttributeErrorDiagnostic path "State Read Error" (readPreamble ^^ detail)])) /\
  (forall val,
     SetAt (setRaw s raw) path val =
       Returns
         (setRaw s raw,
          [NewAttributeErrorDiagnostic path "State Write Error"
             (writeAttrPreamble ^^ detail)])).
Proof.
  intros He detail. split.
  - intro target. unfold GetAttribute, getAttributeValue. cbn [Schema setRaw].
    now rewrite He.
  - intro val. unfold SetAttribute. cbn [Schema setRaw]. now rewrite He.
Qed.

(** X6: no write changes the schema, so removing the resource after a
    write gives the same facade as removing it before. *)
Theorem writes_keep_the_schema (s : State AttrValue) :
  (forall val s' out,
     SetAll s val = Returns (s', out) ->
     Schema s' = Schema s /\ RemoveResource s' = RemoveResource s) /\
  (forall path val s' out,
     SetAt s path val = Returns (s', out) ->
     Schema s' = Schema s /\ RemoveResource s' = RemoveResource s).
Proof.
  assert (Hrm : forall s' : State AttrValue,
             Schema s' = Schema s -> RemoveResource s' = RemoveResource s).
  { intros s' H. unfold RemoveResource, setRaw. now rewrite H. }
  split.
  - intros val s' out. unfold Set_. destruct val as [v|].
    + destruct (FromValue (AttributeType (Schema s)) (Some v) NewAttributePath)
        as [o diags].
      destruct (HasError diags); [intros [= <- _]; auto|].
      destruct o as [a|]; [|discriminate].
      destruct (ToTerraformValue a); intros [= <- _]; auto.
    + intros [= <- _]. auto.
  - intros path val s' out. unfold SetAttribute.
    destruct (AttributeTypeAtPath (Schema s) path) as [attrType|e];
      [|intros [= <- _]; auto].
    destruct (FromValue attrType val path) as [o diags]. cbn [Append app].
    destruct (HasError diags); [intros [= <- _]; auto|].
    destruct o as [a|]; [|discriminate].
    destruct (ToTerraformValue a) as [p|e]; [|intros [= <- _]; auto].
    destruct (Transform Diagnostics (Raw s) (transformFunc path attrType p) diags)
      as [[raw [e|]] diags']; intros [= <- _]; auto.
Qed.

(** X7: [Set] returns an Error exactly when it leaves the facade as it
    was; a result without Error means [FromValue] gave a value and these
    very diagnostics, the wire conversion succeeded, and the new tree is
    in place. *)
Theorem Set_error_means_untouched
  (s s' : State AttrValue) (val : Interface Host) (out : Diagnostics) :
  SetAll s val = Returns (s', out) ->
  (HasError out = true -> s' = s) /\
  (HasError out = false ->
   exists a newStateVal,
     val <> None /\
     FromValue (AttributeType (Schema s)) val NewAttributePath = (Some a, out) /\
     ToTerraformValue a = Ok newStateVal /\
     s' = mkState (NewValue (TerraformType (AttributeType (Schema s))) newStateVal)
                  (Schema s)).
Proof.
  unfold Set_. destruct val as [v|].
  - destruct (FromValue (AttributeType (Schema s)) (Some v) NewAttributePath)
      as [o diags] eqn:Hfrom.
    destruct (HasError diags) eqn:He.
    + intros [= <- <-]. split; [reflexivity|congruence].
    + destruct o as [a|]; [|discriminate].
      destruct (ToTerraformValue a) as [p|e] eqn:Hwire.
      * intros [= <- <-]. split; [congruence|]. intros _.
        exists a, p. repeat split; [discriminate | exact Hwire].
      * intros [= <- <-]. split; [reflexivity|].
        rewrite HasError_AddError. discriminate.
  - intros [= <- <-]. split; [reflexivity|discriminate].
Qed.

(** X8: [Set] reads the schema and the value only: on any other tree it
    returns the same diagnostics, installs the same tree when they hold no
    Error, and keeps the other tree when they do. *)
Theorem Set_ignores_the_old_tree
  (s : State AttrValue) (val : Interface Host) (raw : Value) :
  SetAll (setRaw s raw) val =
    match SetAll s val with
    | Returns (s', out) =>
        if HasError out then Returns (setRaw s raw, out) else Returns (s', out)
    | Panics => Panics
    end.
Proof.
  unfold Set_. cbn [Schema setRaw]. destruct val as [v|]; [|reflexivity].
  destruct (FromValue (AttributeType (Schema s)) (Some v) NewAttributePath)
    as [o diags].
  destruct (HasError diags) eqn:He; [now rewrite He|].
  destruct o as [a|]; [|reflexivity].
  destruct (ToTerraformValue a) as [p|e].
  - now rewrite He.
  - now rewrite HasError_AddError.
Qed.

(** X9: the writes have no guard for a nil value: when [FromValue] hands
    back no value and no Error, [Set] (given a value that is not nil) and
    [SetAttribute] (at a path the schema knows) call [ToTerraformValue] on
    nil, and panic. *)
Theorem writes_panic_on_nil_value
  (s : State AttrValue) (path : AttributePath) (val : Interface Host)
  (diags : Diagnostics) :
  HasError diags = false ->
  (val <> None ->
   FromValue (AttributeType (Schema s)) val NewAttributePath = (None, diags) ->
   SetAll s val = Panics) /\
  (forall attrType,
     AttributeTypeAtPath (Schema s) path = Ok attrType ->
     FromValue attrType val path = (None, diags) ->
     SetAt s path val = Panics).
Proof.
  intro He. split.
  - intros Hval Hfrom. unfold Set_.
    destruct val as [v|]; [|contradiction]. now rewrite Hfrom, He.
  - intros attrType Hty Hfrom. unfold SetAttribute.
    rewrite Hty, Hfrom. cbn [Append app]. now rewrite He.
Qed.

End MoreFacadeProperties.

(** ** The further properties at work *)

(** The Warning type: a value comes with a Warning, never with an Error. *)
Lemma getAttributeValue_value_has_no_error_witness :
  diag.HasError [Fixture.TestWarningDiagnostic Fixture.namePath] = false.
Proof.
  exact (getAttributeValue_value_has_no_error tftypes.WalkAttributePath
           (Fixture.stateOf Fixture.StringTypeWithValidateWarning "namevalue")
           Fixture.namePath
           (Fixture.testtypes_String false "namevalue"
              Fixture.StringTypeWithValidateWarning)
           [Fixture.TestWarningDiagnostic Fixture.namePath] eq_refl).
Defined.

(** The Warning of the validating type is traced back to [Validate]. *)
Lemma getAttributeValue_diagnostics_origin_witness :
  (diag.Severity_ (Fixture.TestWarningDiagnostic Fixture.namePath)
     = diag.SeverityError /\
   diag.Summary (Fixture.TestWarningDiagnostic Fixture.namePath)
     = "State Read Error" /\
   diag.Path (Fixture.TestWarningDiagnostic Fixture.namePath)
     = Some Fixture.namePath) \/
  (exists attrType validate tfValue,
     AttributeTypeAtPath (Fixture.schemaOf Fixture.StringTypeWithValidateWarning)
       Fixture.namePath = Ok attrType /\
     Validate attrType = Some validate /\
     terraformValueAtPath tftypes.WalkAttributePath
       (Fixture.stateOf Fixture.StringTypeWithValidateWarning "namevalue")
       Fixture.namePath = Ok tfValue /\
     In (Fixture.TestWarningDiagnostic Fixture.namePath)
        (validate tfValue Fixture.namePath)).
Proof.
  exact (getAttributeValue_diagnostics_origin tftypes.WalkAttributePath
           (Fixture.stateOf Fixture.StringTypeWithValidateWarning "namevalue")
           Fixture.namePath (Fixture.TestWarningDiagnostic Fixture.namePath)
           (or_introl eq_refl)).
Defined.

(** A path the schema does not know, on the null tree. *)
Lemma unknown_path_is_refused_first_witness :
  Fixture.GetAttribute
    (setRaw (Fixture.stateOf Fixture.StringType "namevalue")
       (tftypes.NewValue Fixture.documentType tftypes.PNil))
    [tftypes.AttributeName "other"] (Fixture.AtString "")
  = (Fixture.AtString "",
     [diag.NewAttributeErrorDiagnostic [tftypes.AttributeName "other"]
        "State Read Error"
        (readPreamble ^^
         Errorf_wrap "error getting attribute type in schema"
           "path leads to no attribute of the schema")]).
Proof.
  exact (proj1
           (unknown_path_is_refused_first
              Fixture.ToTerraformValue Fixture.FromValue Fixture.ValueAs
              tftypes.WalkAttributePath (@tftypes.Transform)
              (Fixture.stateOf Fixture.StringType "namevalue")
              [tftypes.AttributeName "other"]
              "path leads to no attribute of the schema"
              (tftypes.NewValue Fixture.documentType tftypes.PNil) eq_refl)
           (Fixture.AtString "")).
Defined.

(** Removing the resource after a [Set] and before it. *)
Lemma writes_keep_the_schema_witness :
  RemoveResource (Fixture.stateOf Fixture.StringType "bar")
  = RemoveResource (Fixture.stateOf Fixture.StringType "foo").
Proof.
  exact (proj2
           (proj1
              (writes_keep_the_schema
                 Fixture.ToTerraformValue Fixture.FromValue (@tftypes.Transform)
                 (Fixture.stateOf Fixture.StringType "foo"))
              (Some (HostValue (Fixture.GoStruct "bar")))
              (Fixture.stateOf Fixture.StringType "bar") [] eq_refl)).
Defined.

(** A [Set] without Error: the value and the wire form behind the new
    tree. *)
Lemma Set_error_means_untouched_witness :
  exists a newStateVal,
    Some (HostValue (Fixture.GoStruct "bar")) <> None /\
    Fixture.FromValue (AttributeType (Fixture.schemaOf Fixture.StringType))
      (Some (HostValue (Fixture.GoStruct "bar"))) tftypes.NewAttributePath
    = (Some a, []) /\
    Fixture.ToTerraformValue a = Ok newStateVal /\
    Fixture.stateOf Fixture.StringType "bar"
    = mkState
        (tftypes.NewValue
           (TerraformType (AttributeType (Fixture.schemaOf Fixture.StringType)))
           newStateVal)
        (Fixture.schemaOf Fixture.StringType).
Proof.
  exact (proj2
           (Set_error_means_untouched
              Fixture.ToTerraformValue Fixture.FromValue
              (Fixture.stateOf Fixture.StringType "foo")
              (Fixture.stateOf Fixture.StringType "bar")
              (Some (HostValue (Fixture.GoStruct "bar"))) [] eq_refl)
           eq_refl).
Defined.

(** With a [FromValue] that hands back nothing and reports nothing, [Set]
    and [SetAttribute] panic. *)
Lemma writes_panic_on_nil_value_witness :
  Set_ Fixture.ToTerraformValue (fun _ _ _ => (None, []))
    (Fixture.stateOf Fixture.StringType "foo")
    (Some (HostValue (Fixture.GoString "bar")))
  = Panics /\
  SetAttribute Fixture.ToTerraformValue (fun _ _ _ => (None, []))
    (@tftypes.Transform)
    (Fixture.stateOf Fixture.StringType "foo") Fixture.namePath
    (Some (HostValue (Fixture.GoString "bar")))
  = Panics.
Proof.
  refine (match writes_panic_on_nil_value
                  Fixture.ToTerraformValue (fun _ _ _ => (None, []))
                  (@tftypes.Transform)
                  (Fixture.stateOf Fixture.StringType "foo") Fixture.namePath
                  (Some (HostValue (Fixture.GoString "bar"))) [] eq_refl
          with
          | conj Hset Hat =>
              conj (Hset _ eq_refl)
                (Hat (Fixture.attrTypeOf Fixture.StringType) eq_refl eq_refl)
          end).
  discriminate.
Defined.

Lemma twoAttributes_uniqueKeys (i n : string) :
  uniqueKeys (TwoAttributes.document i n).
Proof.
  apply uniqueKeys_map.
  - repeat constructor; cbn; intuition discriminate.
  - repeat constructor.
Qed.

Lemma tagged_uniqueKeys : uniqueKeys Tagged.document.
Proof.
  apply uniqueKeys_map.
  - constructor; [intros []|constructor].
  - constructor; [|constructor]. cbn [snd]. apply uniqueKeys_map.
    + constructor; [intros []|constructor].
    + constructor; [|constructor]. apply uniqueKeys_string.
Qed.

(** The tree holds a bool at [name] where the schema has a string: the
    transform refuses the string, [SetAttribute] returns an Error, and the
    tree is still [{name: true}]. *)
Lemma SetAttribute_error_means_untouched_witness :
  exists s' out,
    Fixture.SetAttribute
      (mkState Fixture.boolDocument (Fixture.schemaOf Fixture.StringType))
      Fixture.namePath (Some (HostValue (Fixture.GoString "bar")))
    = Returns (s', out) /\
    diag.HasError out = true /\
    s' = mkState Fixture.boolDocument (Fixture.schemaOf Fixture.StringType).
Proof.
  eexists. eexists. split; [vm_compute; reflexivity|]. split; [reflexivity|].
  exact (SetAttribute_error_means_untouched
           Fixture.ToTerraformValue Fixture.FromValue
           (mkState Fixture.boolDocument (Fixture.schemaOf Fixture.StringType))
           _ Fixture.namePath (Some (HostValue (Fixture.GoString "bar")))
           _ eq_refl eq_refl).
Defined.

(** Writing the tag [b] into [{tags: {a: "1"}}], which has no such key. *)
Lemma SetAttribute_unreached_path_is_noop_witness :
  Fixture.SetAttribute Tagged.state (Tagged.tagPath "b")
    (Some (HostValue (Fixture.GoString "2")))
  = Returns (Tagged.state, []).
Proof.
  refine (SetAttribute_unreached_path_is_noop
            Fixture.ToTerraformValue Fixture.FromValue
            Tagged.state (Tagged.tagPath "b")
            (Some (HostValue (Fixture.GoString "2")))
            (Fixture.attrTypeOf Fixture.StringType)
            (Fixture.types_String false "2") [] (tftypes.PString "2")
            eq_refl eq_refl eq_refl eq_refl tagged_uniqueKeys _).
  intros node H. discriminate H.
Defined.

(** The Warning type: the Warning of [FromValue] in front, the Warning of
    the transform behind it, and nothing more. *)
Lemma SetAttribute_diagnostics_origin_witness :
  exists s' more tail,
    Fixture.SetAttribute
      (Fixture.stateOf Fixture.StringTypeWithValidateWarning "foo")
      Fixture.namePath (Some (HostValue (Fixture.GoString "bar")))
    = Returns (s', [Fixture.TestWarningDiagnostic Fixture.namePath] ++ more ++ tail) /\
    Forall (fun d => In d [Fixture.TestWarningDiagnostic Fixture.namePath]) more /\
    (tail = [] \/
     s' = Fixture.stateOf Fixture.StringTypeWithValidateWarning "foo" /\
     exists err,
       tail = [diag.NewAttributeErrorDiagnostic Fixture.namePath "State Write Error"
                 (writeAttrPreamble ^^ err)]).
Proof.
  exact (SetAttribute_diagnostics_origin
           Fixture.ToTerraformValue Fixture.FromValue
           (Fixture.stateOf Fixture.StringTypeWithValidateWarning "foo")
           Fixture.namePath (Some (HostValue (Fixture.GoString "bar")))
           (Fixture.attrTypeOf Fixture.StringTypeWithValidateWarning)
           (Fixture.testtypes_String false "bar"
              Fixture.StringTypeWithValidateWarning)
           [Fixture.TestWarningDiagnostic Fixture.namePath] (tftypes.PString "bar")
           eq_refl eq_refl eq_refl eq_refl).
Defined.

Lemma accepts_string (schema : Schema_ Fixture.AttrValue)
  (path : tftypes.AttributePath) (x : string) :
  AttributeTypeAtPath schema path = Ok (Fixture.attrTypeOf Fixture.StringType) ->
  accepts Fixture.ToTerraformValue Fixture.FromValue schema path
    (Some (HostValue (Fixture.GoString x)))
    (tftypes.NewValue tftypes.String (tftypes.PString x)).
Proof.
  intro H.
  exact (ex_intro _ (Fixture.attrTypeOf Fixture.StringType)
           (ex_intro _ (Fixture.types_String false x)
              (ex_intro _ []
                 (ex_intro _ (tftypes.PString x)
                    (conj H
                       (conj eq_refl
                          (conj eq_refl (conj eq_refl (conj eq_refl eq_refl))))))))).
Defined.

(** [name] set to "bar" and then to "baz". *)
Lemma SetAttribute_last_write_wins_witness :
  exists s1 out1 s2 out2,
    Fixture.SetAttribute (Fixture.stateOf Fixture.StringType "foo")
      Fixture.namePath (Some (HostValue (Fixture.GoString "bar")))
    = Returns (s1, out1) /\
    Fixture.SetAttribute s1 Fixture.namePath
      (Some (HostValue (Fixture.GoString "baz")))
    = Returns (s2, out2) /\
    arrives (Raw s2) Fixture.namePath
      (tftypes.NewValue tftypes.String (tftypes.PString "baz")).
Proof.
  destruct (SetAttribute_last_write_wins
              Fixture.ToTerraformValue Fixture.FromValue
              (Fixture.stateOf Fixture.StringType "foo") Fixture.namePath
              (Some (HostValue (Fixture.GoString "bar")))
              (Some (HostValue (Fixture.GoString "baz")))
              (tftypes.NewValue tftypes.String (tftypes.PString "bar"))
              (tftypes.NewValue tftypes.String (tftypes.PString "baz"))
              (tftypes.NewValue tftypes.String (tftypes.PString "foo"))
              (accepts_string (Fixture.schemaOf Fixture.StringType)
                 Fixture.namePath "bar" eq_refl)
              (accepts_string (Fixture.schemaOf Fixture.StringType)
                 Fixture.namePath "baz" eq_refl)
              (document_uniqueKeys "foo")
              (uniqueKeys_string tftypes.String "bar")
              eq_refl eq_refl)
    as (s1 & out1 & s2 & out2 & H1 & H2 & H3 & _).
  exists s1, out1, s2, out2. split; [exact H1|]. split; [exact H2|exact H3].
Defined.

(** [id] and [name] of one document, written one after the other. *)
Lemma SetAttribute_writes_beside_each_other_witness :
  exists s1 out1 s2 out2,
    Fixture.SetAttribute (TwoAttributes.stateOf "1" "foo")
      TwoAttributes.idPath (Some (HostValue (Fixture.GoString "2")))
    = Returns (s1, out1) /\
    Fixture.SetAttribute s1 Fixture.namePath
      (Some (HostValue (Fixture.GoString "bar")))
    = Returns (s2, out2) /\
    arrives (Raw s2) TwoAttributes.idPath
      (tftypes.NewValue tftypes.String (tftypes.PString "2")) /\
    arrives (Raw s2) Fixture.namePath
      (tftypes.NewValue tftypes.String (tftypes.PString "bar")).
Proof.
  refine (SetAttribute_writes_beside_each_other
            Fixture.ToTerraformValue Fixture.FromValue
            (TwoAttributes.stateOf "1" "foo")
            TwoAttributes.idPath Fixture.namePath
            (Some (HostValue (Fixture.GoString "2")))
            (Some (HostValue (Fixture.GoString "bar")))
            (tftypes.NewValue tftypes.String (tftypes.PString "2"))
            (tftypes.NewValue tftypes.String (tftypes.PString "bar"))
            (tftypes.NewValue tftypes.String (tftypes.PString "1"))
            (tftypes.NewValue tftypes.String (tftypes.PString "foo"))
            (accepts_string TwoAttributes.schema TwoAttributes.idPath "2" eq_refl)
            (accepts_string TwoAttributes.schema Fixture.namePath "bar" eq_refl)
            (twoAttributes_uniqueKeys "1" "foo")
            (uniqueKeys_string tftypes.String "2")
            eq_refl eq_refl eq_refl eq_refl _ _).
  - intros [r H]. discriminate H.
  - intros [r H]. discriminate H.
Defined.

(** Writing [id] leaves the read of [name] as it was. *)
Lemma SetAttribute_keeps_other_paths_witness :
  Fixture.SetAttribute (TwoAttributes.stateOf "1" "foo")
    TwoAttributes.idPath (Some (HostValue (Fixture.GoString "2")))
  = Returns (TwoAttributes.stateOf "2" "foo", []) /\
  Fixture.getAttributeValue (TwoAttributes.stateOf "2" "foo") Fixture.namePath
  = Fixture.getAttributeValue (TwoAttributes.stateOf "1" "foo") Fixture.namePath /\
  Fixture.GetAttribute (TwoAttributes.stateOf "2" "foo") Fixture.namePath
    (Fixture.AtString "")
  = Fixture.GetAttribute (TwoAttributes.stateOf "1" "foo") Fixture.namePath
      (Fixture.AtString "").
Proof.
  split; [reflexivity|].
  refine (match SetAttribute_keeps_other_paths
                  Fixture.ToTerraformValue Fixture.FromValue Fixture.ValueAs
                  (TwoAttributes.stateOf "1" "foo") (TwoAttributes.stateOf "2" "foo")
                  TwoAttributes.idPath (Some (HostValue (Fixture.GoString "2"))) []
                  (twoAttributes_uniqueKeys "1" "foo") eq_refl
                  Fixture.namePath _ _
          with
          | conj _ (conj Hget Hread) => conj Hget (Hread (Fixture.AtString ""))
          end).
  - intros [r H]. discriminate H.
  - intros [r H]. discriminate H.
Defined.

(** ** Reading where the tree has no node *)

Section MissingNode.

Import tftypes diag diagFacts treeFacts.

Context {AttrValue Target : Type}.
Variable ValueAs : AttrValue -> Target -> Target * Diagnostics.

Local Abbreviation getValue := (getAttributeValue WalkAttributePath).
Local Abbreviation GetAt := (GetAttribute ValueAs WalkAttributePath).

(** X15: over the walk of [tftypes], reading a path of the schema that
    leads to no node of a tree that is not null is an Error: the walk
    stops with an error and steps left over, and the read returns one
    "State Read Error" at the path, whose detail says, behind the
    preamble, what still remains in the path and the error of the walk,
    no value, and the target as it was; the attribute type is not
    consulted. *)
Theorem read_of_missing_node_is_an_error
  (s : State AttrValue) (path : AttributePath) attrType :
  AttributeTypeAtPath (Schema s) path = Ok attrType ->
  IsNull (Raw s) = false ->
  (forall node, ~ arrives (Raw s) path node) ->
  exists remaining e shown,
    WalkAttributePath (Raw s) path = (None, remaining, Some e) /\
    remaining <> [] /\
    let d :=
      NewAttributeErrorDiagnostic path "State Read Error"
        (readPreamble ^^ (shown ^^ " still remains in the path: " ^^ e)) in
    Severity_ d = SeverityError /\
    getValue s path = (None, [d]) /\
    forall target, GetAt s path target = (target, [d]).
Proof.
  intros Hty Hnull Hno.
  destruct (WalkAttributePath_outcome path (Raw s))
    as [[node H]|(done & remaining & e & Hpath & Hne & Hwalk)].
  { now apply Hno in H. }
  exists remaining, e, (AttributePath_String remaining).
  split; [exact Hwalk|]. split; [exact Hne|].
  intro d. split; [reflexivity|].
  assert (Hget : getValue s path = (None, [d])).
  { unfold getAttributeValue, terraformValueAtPath.
    now rewrite Hty, Hnull, Hwalk. }
  split; [exact Hget|]. intro target. unfold GetAttribute. now rewrite Hget.
Qed.

End MissingNode.

(** Reading the tag [b] from [{tags: {a: "1"}}], which has no such key. *)
Lemma read_of_missing_node_is_an_error_witness :
  exists remaining e shown,
    tftypes.WalkAttributePath Tagged.document (Tagged.tagPath "b")
    = (None, remaining, Some e) /\
    remaining <> [] /\
    Fixture.GetAttribute Tagged.state (Tagged.tagPath "b") (Fixture.AtString "")
    = (Fixture.AtString "",
       [diag.NewAttributeErrorDiagnostic (Tagged.tagPath "b") "State Read Error"
          (readPreamble ^^ (shown ^^ " still remains in the path: " ^^ e))]).
Proof.
  destruct (read_of_missing_node_is_an_error Fixture.ValueAs
              Tagged.state (Tagged.tagPath "b")
              (Fixture.attrTypeOf Fixture.StringType)
              eq_refl eq_refl
              (fun node (H : arrives _ (Tagged.tagPath "b") node) =>
                 eq_ind (None : option tftypes.Value)
                   (fun o => match o with None => True | Some _ => False end)
                   I (Some node) (f_equal (fun r => fst (fst r)) H)))
    as (remaining & e & shown & Hwalk & Hne & _ & _ & Hread).
  exists remaining, e, shown. split; [exact Hwalk|]. split; [exact Hne|].
  exact (Hread (Fixture.AtString "")).
Defined.
